(** * golem: instantiating a Go type from a generic template

    A shallow embedding of [cmd/golem/main.go] and of the parts of Go's
    standard library the command relies on ([bytes], [strings],
    [path/filepath], [regexp], [log], [io/ioutil], [flag]), followed by the
    properties of the rewrite pipeline [declareType], [referenceType],
    [repackage] and of the driver [main].

    Go's [[]byte] and [string] are both sequences of bytes; they are modelled
    by [list byte].  Lengths and indices are natural numbers (Go's [int]
    never overflows on the length of a slice that fits in memory); a search
    that fails, which Go reports as [-1], is [None]. *)

From Stdlib Require Import ZArith Lia Strings.Byte.
From stdpp Require Import base list.

Set Default Proof Using "Type".

(** ** Byte slices and their literals *)

Abbreviation bytes := (list byte).

Inductive literal : Set :=
  | lit_nil
  | lit_cons (b : byte) (r : literal).

Fixpoint literal_of_bytes (l : list byte) : literal :=
  match l with
  | [] => lit_nil
  | b :: r => lit_cons b (literal_of_bytes r)
  end.

Fixpoint bytes_of_literal (l : literal) : list byte :=
  match l with
  | lit_nil => []
  | lit_cons b r => b :: bytes_of_literal r
  end.

Declare Scope bytes_scope.
Delimit Scope bytes_scope with bytes.
#[warnings="-via-type-remapping,-via-type-mismatch"]
String Notation list literal_of_bytes bytes_of_literal
  (via literal mapping [ [nil] => lit_nil, [cons] => lit_cons ]) : bytes_scope.
Open Scope bytes_scope.

(** The newline byte, written [\n] in the Go source. *)
Definition NL : byte := x0a.

#[global] Instance byte_eq_dec : EqDecision byte := Byte.byte_eq_dec.

(** ** Package [bytes] *)

Module GoBytes.

(** [bytes.HasPrefix(s, prefix)]. *)
Fixpoint HasPrefix (s prefix : bytes) {struct prefix} : bool :=
  match prefix, s with
  | [], _ => true
  | _ :: _, [] => false
  | p :: prefix', c :: s' => Byte.eqb c p && HasPrefix s' prefix'
  end.

(** [bytes.Index(s, sep)]: the index of the first instance of [sep] in
    [s]; [None] stands for Go's [-1]. *)
Fixpoint Index (s sep : bytes) : option nat :=
  if HasPrefix s sep then Some 0
  else match s with
       | [] => None
       | _ :: s' => S <$> Index s' sep
       end.

(** [bytes.Contains(b, subslice)] is [Index(b, subslice) != -1]. *)
Definition Contains (b subslice : bytes) : bool :=
  match Index b subslice with
  | Some _ => true
  | None => false
  end.

(** The counting loop of [bytes.Count]:
    [for { i := Index(s, sep); if i == -1 { return n }; n++; s = s[i+len(sep):] }].
    Every round drops at least one byte when [sep] is not empty, so
    [length s] rounds are enough. *)
Fixpoint Count_loop (fuel : nat) (s sep : bytes) : nat :=
  match fuel with
  | 0 => 0
  | S fuel' =>
      match Index s sep with
      | None => 0
      | Some i => S (Count_loop fuel' (drop (i + length sep) s) sep)
      end
  end.

(** [bytes.Count(s, sep)].  For an empty [sep] Go answers the number of
    runes plus one; bytes are counted here, which is the same number on
    ASCII text. *)
Definition Count (s sep : bytes) : nat :=
  match sep with
  | [] => length s + 1
  | _ :: _ => Count_loop (length s) s sep
  end.

(** The replacement loop of [bytes.Replace]; [s] is Go's [s[start:]] and
    the result is what Go appends to [t] from [start] on.  In round [i]
    the next instance is at [j]; for an empty [old] Go steps over one rune
    after the first round (one byte here). *)
Fixpoint Replace_loop (old new : bytes) (i n : nat) (s : bytes) : bytes :=
  match n with
  | 0 => s
  | S n' =>
      let j := match old with
               | [] => if i =? 0 then 0 else 1
               | _ :: _ => default 0 (Index s old)
               end in
      take j s ++ new ++ Replace_loop old new (S i) n' (drop (j + length old) s)
  end.

(** [bytes.Replace(s, old, new, n)]: the first [n] non-overlapping
    instances of [old] replaced by [new]; no limit when [n < 0]. *)
Definition Replace (s old new : bytes) (n : Z) : bytes :=
  let m := if (n =? 0)%Z then 0 else Count s old in
  if m =? 0 then s
  else
    let n := if ((n <? 0) || (Z.of_nat m <? n))%Z then m else Z.to_nat n in
    Replace_loop old new 0 n s.

(** [bytes.ReplaceAll(s, old, new)] is [Replace(s, old, new, -1)]. *)
Definition ReplaceAll (s old new : bytes) : bytes :=
  Replace s old new (-1).

(** The loop of [bytes.Split] (Go's [genSplit] with [sepSave = 0]): at
    most [n] cuts at the successive instances of [sep]. *)
Fixpoint Split_loop (sep : bytes) (n : nat) (s : bytes) : list bytes :=
  match n with
  | 0 => [s]
  | S n' =>
      match Index s sep with
      | None => [s]
      | Some m => take m s :: Split_loop sep n' (drop (m + length sep) s)
      end
  end.

(** [bytes.Split(s, sep)] for a non-empty [sep]: the pieces of [s]
    between the instances of [sep]. *)
Definition Split (s sep : bytes) : list bytes :=
  Split_loop sep (Count s sep) s.

(** [bytes.Join(s, sep)]. *)
Fixpoint Join (s : list bytes) (sep : bytes) : bytes :=
  match s with
  | [] => []
  | [p] => p
  | p :: s' => p ++ sep ++ Join s' sep
  end.

(** [bytes.IndexByte(b, c)]. *)
Fixpoint IndexByte (b : bytes) (c : byte) : option nat :=
  match b with
  | [] => None
  | x :: b' => if Byte.eqb x c then Some 0 else S <$> IndexByte b' c
  end.

End GoBytes.

(** ** Package [strings] *)

Module GoStrings.

Definition between (lo hi r : byte) : bool :=
  ((Byte.to_N lo <=? Byte.to_N r) && (Byte.to_N r <=? Byte.to_N hi))%N.

(** [strings.isSeparator]: ASCII letters, digits and the underscore are
    not separators, every other ASCII byte is.  Above [0x7F] Go consults
    the Unicode tables (letters and digits are not separators, spaces
    are); the bytes of such runes count as word characters here. *)
Definition isSeparator (r : byte) : bool :=
  if (Byte.to_N r <=? 127)%N then
    if between "0" "9" r then false
    else if between "a" "z" r then false
    else if between "A" "Z" r then false
    else if Byte.eqb r "_" then false
    else true
  else false.

(** [unicode.ToTitle] on ASCII: lower-case letters go to upper case. *)
Definition ToTitle (r : byte) : byte :=
  if between "a" "z" r
  then default r (Byte.of_N (Byte.to_N r - 32))
  else r.

(** The closure [strings.Title] maps over its argument; [prev] is the
    rune seen before, initially a space. *)
Fixpoint Title_map (prev : byte) (s : bytes) : bytes :=
  match s with
  | [] => []
  | r :: s' =>
      (if isSeparator prev then ToTitle r else r) :: Title_map r s'
  end.

(** [strings.Title(s)]: the letters that begin words mapped to title
    case.  Exact on ASCII text; other bytes are copied. *)
Definition Title (s : bytes) : bytes := Title_map " " s.

(** [strings.HasSuffix(s, suffix)]. *)
Definition HasSuffix (s suffix : bytes) : bool :=
  GoBytes.HasPrefix (reverse s) (reverse suffix).

(** [strings.TrimSuffix(s, suffix)]. *)
Definition TrimSuffix (s suffix : bytes) : bytes :=
  if HasSuffix s suffix then take (length s - length suffix) s else s.

End GoStrings.

(** ** The rewrite steps of [main.go] *)

(** The placeholder tokens the templates are written against. *)
Definition aliasDecl : bytes := "type genT interface{}".
Definition aliasToken : bytes := "genT".
Definition typeToken : bytes := "AnyT".

(** [fmt.Sprintf("gen%s", strings.Title(kind))]. *)
Definition aliasName (kind : bytes) : bytes :=
  "gen" ++ GoStrings.Title kind.

(** [fmt.Sprintf("type gen%s %s", strings.Title(kind), kind)]. *)
Definition aliasBinding (kind : bytes) : bytes :=
  "type gen" ++ GoStrings.Title kind ++ " " ++ kind.

Definition declareType (file kind : bytes) : bytes :=
  let a := GoBytes.Replace file aliasDecl (aliasBinding kind) 1 in
  let b := GoBytes.ReplaceAll a aliasToken (aliasName kind) in
  b.

Definition referenceType (file kind : bytes) : bytes :=
  GoBytes.ReplaceAll file typeToken kind.


(** ** Package [regexp] *)

Module GoRegexp.

(** The operators of [regexp/syntax] that the pattern of [repackage]
    is built from. *)
Inductive Regexp : Set :=
  | OpLiteral (s : bytes)
  | OpAnyCharNotNL
  | OpStar (r : Regexp)
  | OpConcat (r1 r2 : Regexp)
  | OpCapture (n : nat) (r : Regexp).

(** The submatches found so far: group number, start and end offset. *)
Definition captures : Set := list (nat * (nat * nat)).

Definition cont : Set := bytes -> nat -> captures -> option (nat * captures).

(** Greedy repetition: [step] matches the operand once, [k] what follows
    the star.  As many repetitions as possible are tried first, then one
    less, and so on; a repetition that consumes nothing is not retried.
    Every repetition kept consumes a byte, so [length s] rounds are
    enough. *)
Fixpoint star (step : bytes -> nat -> captures -> cont -> option (nat * captures))
    (k : cont) (fuel : nat) (s : bytes) (pos : nat) (caps : captures)
    : option (nat * captures) :=
  match fuel with
  | 0 => k s pos caps
  | S fuel' =>
      match step s pos caps
              (fun s' pos' caps' =>
                 if pos' =? pos then None
                 else star step k fuel' s' pos' caps') with
      | Some m => Some m
      | None => k s pos caps
      end
  end.

(** Backtracking matcher with Go's leftmost-first preference: [s] is the
    input from offset [pos] on and [k] matches what follows [r]; the
    result is the offset where the whole match ends.  Go's [.] consumes
    one rune; its bytes are consumed one by one here, which makes no
    difference under a star since the newline byte is never part of a
    longer rune. *)
Fixpoint run (r : Regexp) (s : bytes) (pos : nat) (caps : captures)
    (k : cont) {struct r} : option (nat * captures) :=
  match r with
  | OpLiteral l =>
      if GoBytes.HasPrefix s l
      then k (drop (length l) s) (pos + length l) caps
      else None
  | OpAnyCharNotNL =>
      match s with
      | [] => None
      | c :: s' => if Byte.eqb c NL then None else k s' (S pos) caps
      end
  | OpConcat r1 r2 =>
      run r1 s pos caps (fun s' pos' caps' => run r2 s' pos' caps' k)
  | OpCapture n r' =>
      run r' s pos caps
        (fun s' pos' caps' => k s' pos' ((n, (pos, pos')) :: caps'))
  | OpStar r' => star (run r') k (length s) s pos caps
  end.

Definition accept : cont := fun _ pos caps => Some (pos, caps).

(** The leftmost match of [re] in [s]: where it starts, where it ends and
    its submatches (the whole match is submatch 0), all as offsets into the
    text searched, whose first byte has offset [off]. *)
Fixpoint search (re : Regexp) (s : bytes) (off : nat)
    : option (nat * nat * captures) :=
  match run re s off [] accept with
  | Some (e, caps) => Some (off, e, (0, (off, e)) :: caps)
  | None =>
      match s with
      | [] => None
      | _ :: s' => search re s' (S off)
      end
  end.

Definition doExecute (re : Regexp) (s : bytes)
    : option (nat * nat * captures) :=
  search re s 0.

Definition isWordByte (b : byte) : bool :=
  GoStrings.between "0" "9" b || GoStrings.between "a" "z" b
  || GoStrings.between "A" "Z" b || Byte.eqb b "_".

Definition isDigit (b : byte) : bool := GoStrings.between "0" "9" b.

(** The number a purely numeric name stands for; [None] is Go's [-1]. *)
Definition number (name : bytes) : option N :=
  let num :=
    foldl (fun acc b =>
             match acc with
             | Some n =>
                 if negb (isDigit b) || (100000000 <=? n)%N then None
                 else Some (n * 10 + (Byte.to_N b - 48))%N
             | None => None
             end) (Some 0%N) name in
  match name with
  | b :: _ :: _ => if Byte.eqb b "0" then None else num
  | _ => num
  end.

(** The scan of [extract]: how many bytes at the head of [str] belong to
    a name. *)
Fixpoint nameLength (str : bytes) : nat :=
  match str with
  | b :: str' => if isWordByte b then S (nameLength str') else 0
  | [] => 0
  end.

(** [regexp.extract]: the name at the head of [str], as [name] or
    [{name}]; letters are the ASCII ones here. *)
Definition extract (str : bytes) : option (bytes * option N * bytes) :=
  let '(brace, str) :=
    match str with
    | b :: t => if Byte.eqb b "{" then (true, t) else (false, str)
    | [] => (false, str)
    end in
  let i := nameLength str in
  let name := take i str in
  let rest := drop i str in
  match name with
  | [] => None
  | _ :: _ =>
      if brace then
        match rest with
        | b :: rest' =>
            if Byte.eqb b "}" then Some (name, number name, rest') else None
        | [] => None
        end
      else Some (name, number name, rest)
  end.

Definition submatch (src : bytes) (caps : captures) (n : nat) : bytes :=
  match list_find (fun c => c.1 = n) caps with
  | Some (_, (_, (b, e))) => take (e - b) (drop b src)
  | None => []
  end.

(** [Regexp.expand]: the replacement template with [$name], [${name}] and
    [$$] interpreted; the patterns here have no named groups, so a name
    that is not a number expands to nothing.  Each round consumes a [$]. *)
Fixpoint expand (fuel : nat) (template src : bytes) (caps : captures)
    : bytes :=
  match fuel with
  | 0 => template
  | S fuel' =>
      match GoBytes.IndexByte template "$" with
      | None => template
      | Some i =>
          let before := take i template in
          let after := drop (S i) template in
          match after with
          | b :: after' =>
              if Byte.eqb b "$"
              then before ++ "$" ++ expand fuel' after' src caps
              else
                match extract after with
                | None => before ++ "$" ++ expand fuel' after src caps
                | Some (_, Some n, rest) =>
                    before ++ submatch src caps (N.to_nat n)
                      ++ expand fuel' rest src caps
                | Some (_, None, rest) =>
                    before ++ expand fuel' rest src caps
                end
          | [] => before ++ "$"
          end
      end
  end.

(** The loop of [Regexp.replaceAll].  [s] is the text from [searchPos]
    on, [pending] the text between [lastMatchEnd] and [searchPos] (one
    byte after an empty match, nothing otherwise) and [atStart] tells
    whether [searchPos] is 0.  The result is what Go appends to [buf]
    from here on. *)
Fixpoint replaceAll_loop (re : Regexp) (repl : bytes) (fuel : nat)
    (atStart : bool) (pending s : bytes) : bytes :=
  match fuel with
  | 0 => pending ++ s
  | S fuel' =>
      match doExecute re s with
      | None => pending ++ s
      | Some (a0, a1, caps) =>
          pending ++ take a0 s
          ++ (if (0 <? length pending + a1) || (atStart && (a0 =? 0))
              then expand (length repl) repl s caps else [])
          ++ (if a1 =? 0 then
                match s with
                | [] => []
                | c :: s' => replaceAll_loop re repl fuel' false [c] s'
                end
              else replaceAll_loop re repl fuel' false [] (drop a1 s))
      end
  end.

(** [re.ReplaceAll(src, repl)]. *)
Definition ReplaceAll (re : Regexp) (src repl : bytes) : bytes :=
  replaceAll_loop re repl (S (length src)) true [] src.

End GoRegexp.

(** The syntax tree of the pattern compiled in [repackage]: the literal
    [package ], a capturing group around a starred [.], and a newline. *)
Definition packageClause : GoRegexp.Regexp :=
  GoRegexp.OpConcat (GoRegexp.OpLiteral "package ")
    (GoRegexp.OpConcat
       (GoRegexp.OpCapture 1 (GoRegexp.OpStar GoRegexp.OpAnyCharNotNL))
       (GoRegexp.OpLiteral [NL])).

Definition repackage (file pkg : bytes) : bytes :=
  let re := packageClause in
  GoRegexp.ReplaceAll re file ("package " ++ pkg ++ [NL]).


(** ** Package [path/filepath], on a system whose separator is [/] *)

Module GoFilepath.

Definition IsPathSeparator (c : byte) : bool := Byte.eqb c "/".

(** The elements of a path, the text between the separators. *)
Fixpoint elements (path : bytes) : list bytes :=
  match path with
  | [] => [[]]
  | c :: path' =>
      if IsPathSeparator c then [] :: elements path'
      else match elements path' with
           | e :: es => (c :: e) :: es
           | [] => [[c]]
           end
  end.

(** One element read by [Clean]; [out] holds the elements written so far,
    the last one first.  Empty elements and [.] are skipped, [..] removes
    the element before it, or stays when there is none to remove and the
    path is not rooted. *)
Definition cleanElement (rooted : bool) (out : list bytes) (e : bytes)
    : list bytes :=
  if bool_decide (e = []) || bool_decide (e = ".") then out
  else if bool_decide (e = "..") then
    match out with
    | top :: out' => if bool_decide (top = "..") then e :: out else out'
    | [] => if rooted then [] else [e]
    end
  else e :: out.

(** [filepath.Clean(path)]. *)
Definition Clean (path : bytes) : bytes :=
  match path with
  | [] => "."
  | c :: _ =>
      let rooted := IsPathSeparator c in
      let out := foldl (cleanElement rooted) [] (elements path) in
      let name := (if rooted then "/" else []) ++ GoBytes.Join (reverse out) "/" in
      match name with
      | [] => "."
      | _ :: _ => name
      end
  end.

(** [filepath.Join(elem...)]: the elements from the first non-empty one
    on, joined by separators and cleaned. *)
Fixpoint Join (elem : list bytes) : bytes :=
  match elem with
  | [] => []
  | [] :: elem' => Join elem'
  | _ :: _ => Clean (GoBytes.Join elem "/")
  end.

Fixpoint dropSeparators (r : bytes) : bytes :=
  match r with
  | c :: r' => if IsPathSeparator c then dropSeparators r' else r
  | [] => []
  end.

Fixpoint untilSeparator (r : bytes) : bytes :=
  match r with
  | c :: r' => if IsPathSeparator c then [] else c :: untilSeparator r'
  | [] => []
  end.

(** [filepath.Base(path)]: the last element of the path, trailing
    separators removed first.  Both loops of the Go function run from the
    end of the path, hence over its reversal here. *)
Definition Base (path : bytes) : bytes :=
  match path with
  | [] => "."
  | _ :: _ =>
      match reverse (untilSeparator (dropSeparators (reverse path))) with
      | [] => "/"
      | e => e
      end
  end.

(** The loop of [filepath.Ext], from the last byte backwards: [acc] is
    what was stepped over. *)
Fixpoint Ext_loop (r acc : bytes) : bytes :=
  match r with
  | [] => []
  | c :: r' =>
      if IsPathSeparator c then []
      else if Byte.eqb c "." then c :: acc
      else Ext_loop r' (c :: acc)
  end.

(** [filepath.Ext(path)]: the suffix from the last dot of the last
    element on, empty when there is no dot. *)
Definition Ext (path : bytes) : bytes := Ext_loop (reverse path) [].

End GoFilepath.

(** ** The process and its surroundings *)

(** [build.Package], the two fields [main] reads. *)
Record Package : Set := { Name : bytes; PkgRoot : bytes }.

(** The command-line options after [flag.Parse]. *)
Record opts : Set := { kind : bytes; generic : bytes; lib : bool }.

(** What a run of the command finds around it: its flags, [GOPATH], the
    outcome of [build.Default.ImportDir(".", 0)] (a package or an error),
    the files that can be read, the text [time.Now().UTC()] is formatted
    to, and the paths [ioutil.WriteFile] can write to. *)
Record Env : Type := {
  flags : opts;
  GOPATH : bytes;
  ImportDir : Package + bytes;
  ReadFile : bytes -> bytes + bytes;
  Now : bytes;
  writable : bytes -> bool;
}.

(** What a run leaves behind: the logger's prefix, the lines logged and the
    files written (path and content), the latest first. *)
Record State : Set := {
  logPrefix : bytes;
  logged : list bytes;
  written : list (bytes * bytes);
}.

Definition initial : State :=
  {| logPrefix := []; logged := []; written := [] |}.

(** A step either goes on with a value or ends the process with a status
    ([os.Exit]). *)
Inductive Result (A : Type) : Type :=
  | Continue (a : A)
  | Exit (status : Z).
Arguments Continue {A} a.
Arguments Exit {A} status.

Definition Proc (A : Type) : Type := State -> Result A * State.

Definition ret {A} (a : A) : Proc A := fun st => (Continue a, st).

Definition bind {A B} (c : Proc A) (k : A -> Proc B) : Proc B :=
  fun st =>
    match c st with
    | (Continue a, st') => k a st'
    | (Exit status, st') => (Exit status, st')
    end.

Notation "'let!' x := c 'in' k" := (bind c (fun x => k))
  (at level 10, x name, c at level 100, k at level 200).

Module GoLog.

(** [log.SetFlags(flag)].  [main] sets the flags to 0 before anything is
    logged, which leaves the prefix as the only header of a line; the
    flags are not kept. *)
Definition SetFlags (flag : Z) : Proc unit := ret tt.

(** [log.SetPrefix(prefix)]. *)
Definition SetPrefix (prefix : bytes) : Proc unit :=
  fun st =>
    (Continue tt,
     {| logPrefix := prefix; logged := logged st; written := written st |}).

(** The line [Logger.Output] writes when the flags are 0, as [main] sets
    them: the prefix and the message, closed by a newline when the message
    has none. *)
Definition line (prefix msg : bytes) : bytes :=
  prefix ++ msg
  ++ (match last msg with
      | Some c => if Byte.eqb c NL then [] else [NL]
      | None => [NL]
      end).

(** [Logger.Output]. *)
Definition Output (msg : bytes) : Proc unit :=
  fun st =>
    (Continue tt,
     {| logPrefix := logPrefix st;
        logged := line (logPrefix st) msg :: logged st;
        written := written st |}).

(** [log.Printf] (the message is formatted by the caller). *)
Definition Printf (msg : bytes) : Proc unit := Output msg.

(** [log.Fatal(v)] is [Print(v)] followed by [os.Exit(1)]. *)
Definition Fatal {A} (msg : bytes) : Proc A :=
  fun st => (Exit 1%Z, snd (Output msg st)).

End GoLog.

Module GoIoutil.

(** [ioutil.WriteFile(filename, data, perm)]: the file is created or
    replaced, or an error comes back and nothing is written (a failure
    half-way, which leaves a truncated file, is not told apart). *)
Definition WriteFile (e : Env) (filename data : bytes) : Proc (option bytes) :=
  fun st =>
    if writable e filename then
      (Continue None,
       {| logPrefix := logPrefix st;
          logged := logged st;
          written := (filename, data) :: written st |})
    else (Continue (Some ("open " ++ filename ++ ": permission denied")), st).

End GoIoutil.

(** ** Package [flag] *)

Module GoFlag.

(** Why [flag.Parse] gives up on a command line.  The command line's flag
    set is made with [ExitOnError]: the reason is printed and the process
    ends there. *)
Inductive Error : Set :=
  | BadSyntax
  | NotDefined
  | Help
  | InvalidBoolean
  | NeedsArgument.

(** A flag as [flag.StringVar] or [flag.BoolVar] defines it: how its value
    is stored in the variables [A] of the program. *)
Inductive Flag (A : Type) : Type :=
  | StringVar (set : bytes -> A -> A)
  | BoolVar (set : bool -> A -> A).

Arguments StringVar {A} set.
Arguments BoolVar {A} set.

(** [strconv.ParseBool], which reads the value of a boolean flag. *)
Definition ParseBool (str : bytes) : option bool :=
  if bool_decide (str ∈ ["1"; "t"; "T"; "TRUE"; "true"; "True"])
  then Some true
  else if bool_decide (str ∈ ["0"; "f"; "F"; "FALSE"; "false"; "False"])
  then Some false
  else None.

(** The loop of [parseOne] that looks for a value in the argument itself:
    the name ends at the first [=] that is not the first byte. *)
Definition nameValue (name : bytes) : bytes * option bytes :=
  match name with
  | [] => (name, None)
  | c :: rest =>
      match GoBytes.IndexByte rest "=" with
      | Some i => (c :: take i rest, Some (drop (S i) rest))
      | None => (name, None)
      end
  end.

(** What [parseOne] returns: no flag in front ([false, nil]), a flag seen
    and stored ([true, nil]), or an error. *)
Inductive Step (A : Type) : Type :=
  | Done
  | Seen (a : A) (args : list bytes)
  | Failed (err : Error).

Arguments Done {A}.
Arguments Seen {A} a args.
Arguments Failed {A} err.

(** [FlagSet.parseOne]: [formal] are the flags defined, [a] the variables
    they are stored in and [args] the arguments not yet read. *)
Definition parseOne {A : Type} (formal : bytes -> option (Flag A)) (a : A)
    (args : list bytes) : Step A :=
  match args with
  | [] => Done
  | s :: args =>
      match s with
      | c0 :: c1 :: t =>
          if negb (Byte.eqb c0 "-") then Done
          else if Byte.eqb c1 "-" && bool_decide (t = []) then Done
          else
            let name := if Byte.eqb c1 "-" then t else c1 :: t in
            match name with
            | [] => Failed BadSyntax
            | n0 :: _ =>
                if Byte.eqb n0 "-" || Byte.eqb n0 "=" then Failed BadSyntax
                else
                  let '(name, value) := nameValue name in
                  match formal name with
                  | None =>
                      if bool_decide (name = "help") || bool_decide (name = "h")
                      then Failed Help
                      else Failed NotDefined
                  | Some (BoolVar set) =>
                      match value with
                      | Some v =>
                          match ParseBool v with
                          | Some b => Seen (set b a) args
                          | None => Failed InvalidBoolean
                          end
                      | None => Seen (set true a) args
                      end
                  | Some (StringVar set) =>
                      match value, args with
                      | Some v, _ => Seen (set v a) args
                      | None, v :: args => Seen (set v a) args
                      | None, [] => Failed NeedsArgument
                      end
                  end
            end
      | _ => Done
      end
  end.

(** The loop of [FlagSet.Parse]; every flag seen takes an argument away,
    so there are at most [n] rounds for [n] arguments. *)
Fixpoint Parse_loop {A : Type} (formal : bytes -> option (Flag A)) (n : nat)
    (a : A) (args : list bytes) : A + Error :=
  match n with
  | 0 => inl a
  | S n' =>
      match parseOne formal a args with
      | Done => inl a
      | Seen a' args' => Parse_loop formal n' a' args'
      | Failed err => inr err
      end
  end.

(** [flag.Parse()] over the arguments behind the name of the program:
    the variables as the flags in front left them, or the error the
    process ends with. *)
Definition Parse {A : Type} (formal : bytes -> option (Flag A)) (a : A)
    (args : list bytes) : A + Error :=
  Parse_loop formal (length args) a args.

End GoFlag.

(** ** [main] *)

Definition parseOpts (e : Env) : opts := flags e.

(** Lines 119 to 121: the three flags [parseOpts] defines. *)
Definition formal (name : bytes) : option (GoFlag.Flag opts) :=
  if bool_decide (name = "type")
  then Some (GoFlag.StringVar
               (fun v o => {| kind := v; generic := generic o; lib := lib o |}))
  else if bool_decide (name = "generic")
  then Some (GoFlag.StringVar
               (fun v o => {| kind := kind o; generic := v; lib := lib o |}))
  else if bool_decide (name = "lib")
  then Some (GoFlag.BoolVar
               (fun b o => {| kind := kind o; generic := generic o; lib := b |}))
  else None.

(** Lines 117 to 125 on a command line: the options [parseOpts] returns
    when [flag.Parse] accepts the arguments [args], each flag empty or
    false unless given.  On an error [flag.Parse] ends the process and
    [parseOpts] does not return; the [flags] of an [Env] are those of a
    run in which it did. *)
Definition parseArgs (args : list bytes) : opts + GoFlag.Error :=
  GoFlag.Parse formal {| kind := ""; generic := ""; lib := false |} args.

(** Lines 168 to 175: the name of the generic (the local variable
    [generic], called [base] in [main] below), the name of the file to write
    and the name of the concrete type. *)
Definition names (opt : opts) (source : bytes) : bytes * bytes * bytes :=
  let generic := GoStrings.TrimSuffix (GoFilepath.Base source) (GoFilepath.Ext source) in
  let filename := generic ++ ".go" in
  let typename := GoStrings.Title generic in
  let '(filename, typename) :=
    if lib opt then (kind opt ++ ".go", GoStrings.Title (kind opt))
    else (filename, typename) in
  (generic, filename, typename).

(** Lines 182 to 184: the three rewrites. *)
Definition rewrite (input kind typename pkgName : bytes) : bytes :=
  let a := declareType input kind in
  let b := referenceType a typename in
  let c := repackage b pkgName in
  c.

(** Lines 186 to 191: the header and the rewritten template. *)
Definition output (generic now c : bytes) : bytes :=
  "// Code generated by `golem` package" ++ [NL]
  ++ ("// Source: " ++ generic ++ [NL])
  ++ ("// Time: " ++ now ++ [NL; NL])
  ++ c.

Definition main (e : Env) : Proc unit :=
  let! _ := GoLog.SetFlags 0 in
  let! _ := GoLog.SetPrefix "==> golem: " in
  let opt := parseOpts e in
  let! pkg := match ImportDir e with
              | inl pkg => ret pkg
              | inr err => GoLog.Fatal err
              end in
  let source := GoFilepath.Join [GOPATH e; "src"; generic opt] in
  let '(base, filename, typename) := names opt source in
  let! input := match ReadFile e source with
                | inl input => ret input
                | inr err => GoLog.Fatal err
                end in
  let c := rewrite input (kind opt) typename (Name pkg) in
  let out := output (generic opt) (Now e) c in
  let! _ := GoIoutil.WriteFile e (GoFilepath.Join [PkgRoot pkg; filename]) out in
  GoLog.Printf (base ++ "." ++ typename).

(** The exit status of the process: 0 when [main] returns. *)
Definition exitStatus {A} (r : Result A * State) : Z :=
  match fst r with
  | Continue _ => 0%Z
  | Exit status => status
  end.

(** The path of the template, line 167. *)
Definition sourceOf (e : Env) : bytes :=
  GoFilepath.Join [GOPATH e; "src"; generic (flags e)].

(** The three names of lines 168 to 175, for the run in [e]. *)
Definition genericOf (e : Env) : bytes := (names (flags e) (sourceOf e)).1.1.
Definition filenameOf (e : Env) : bytes := (names (flags e) (sourceOf e)).1.2.
Definition typenameOf (e : Env) : bytes := (names (flags e) (sourceOf e)).2.

(** The path of the file to write, line 193. *)
Definition destinationOf (e : Env) (pkg : Package) : bytes :=
  GoFilepath.Join [PkgRoot pkg; filenameOf e].

(** The same surroundings at another time. *)
Definition at_time (e : Env) (now : bytes) : Env :=
  {| flags := flags e;
     GOPATH := GOPATH e;
     ImportDir := ImportDir e;
     ReadFile := ReadFile e;
     Now := now;
     writable := writable e |}.

(** ** Vocabulary of the properties *)

(** The continuation behind the star: the newline that closes the
    match. *)
Definition closing (start : nat) : GoRegexp.cont :=
  fun s' pos' caps' =>
    GoRegexp.run (GoRegexp.OpLiteral [NL]) s' pos' ((1, (start, pos')) :: caps') GoRegexp.accept.

(** Where a match of the pattern that begins at the head of [s] ends:
    [s] must begin with [package ], and the match runs through the first
    newline behind it.  The result is the length of the line's rest. *)
Definition clauseAt (s : bytes) : option nat :=
  if GoBytes.HasPrefix s "package " then GoBytes.IndexByte (drop 8 s) NL else None.

(** The replacement [repackage] passes to [ReplaceAll]. *)
Definition clauseFor (pkg : bytes) : bytes := "package " ++ pkg ++ [NL].

(** A name that cannot help to spell the alias token: it begins with a
    byte that is not in the token and holds no [g] after it. *)
Definition aliasSafe (name : bytes) : bool :=
  match name with
  | [] => false
  | c :: rest =>
      match GoBytes.IndexByte aliasToken c, GoBytes.IndexByte rest "g" with
      | None, None => true
      | _, _ => false
      end
  end.

(** The text made of the lines [lines], each closed by a newline, and of a
    last line [rest] that is not. *)
Fixpoint text (lines : list bytes) (rest : bytes) : bytes :=
  match lines with
  | [] => rest
  | l :: lines' => l ++ NL :: text lines' rest
  end.

(** What becomes of one line: from the first [package ] on, the line is
    replaced by the clause for [pkg]. *)
Definition reline (pkg line : bytes) : bytes :=
  match GoBytes.Index line "package " with
  | None => line
  | Some i => take i line ++ "package " ++ pkg
  end.

(** Every instance of [sep] that begins in [u] also ends in [u]. *)
Definition contained (sep u v : bytes) : Prop :=
  forall i, i < length u ->
    GoBytes.HasPrefix (drop i (u ++ v)) sep = true -> i + length sep <= length u.

(** A run used as an example: the template of the documentation, read from
    under [GOPATH], instantiated in a package called [numbers]. *)
Definition stackTemplate : bytes := "package stack

type genT interface{}

type AnyT struct { elements []genT }
".

Definition example (lib : bool) (kind : bytes) (canWrite : bool) : Env :=
  {| flags := {| kind := kind;
                 generic := "github.com/fogfish/golem/stack/stack.go";
                 lib := lib |};
     GOPATH := "/home/dev/go";
     ImportDir := inl {| Name := "numbers"; PkgRoot := "/home/dev/go/pkg" |};
     ReadFile := fun path =>
       if bool_decide
            (path = "/home/dev/go/src/github.com/fogfish/golem/stack/stack.go")
       then inl stackTemplate
       else inr ("open " ++ path ++ ": no such file or directory");
     Now := "2019-11-10 18:30:00.123456789 +0000 UTC";
     writable := fun _ => canWrite |}.

(** A name that cannot help to spell the type token [AnyT]: it begins
    with a byte that is not in the token and holds no [A] after it. *)
Definition typeSafe (name : bytes) : bool :=
  match name with
  | [] => false
  | c :: rest =>
      match GoBytes.IndexByte typeToken c, GoBytes.IndexByte rest "A" with
      | None, None => true
      | _, _ => false
      end
  end.

(** A run started outside of any Go package. *)
Definition outsidePackage : Env :=
  {| flags := flags (example true "int" true);
     GOPATH := "/home/dev/go";
     ImportDir := inr "no buildable Go source files in /tmp";
     ReadFile := ReadFile (example true "int" true);
     Now := "2019-11-10 18:30:00.123456789 +0000 UTC";
     writable := fun _ => true |}.

(** A run that names a template which is not under [GOPATH]. *)
Definition missingTemplate : Env :=
  {| flags := {| kind := "int"; generic := "github.com/absent/queue.go";
                 lib := true |};
     GOPATH := "/home/dev/go";
     ImportDir := inl {| Name := "numbers"; PkgRoot := "/home/dev/go/pkg" |};
     ReadFile := ReadFile (example true "int" true);
     Now := "2019-11-10 18:30:00.123456789 +0000 UTC";
     writable := fun _ => true |}.

(** A run whose [-generic] argument holds a newline in an element of the
    path that the [..] behind it takes away again: [filepath.Join] cleans
    the path to that of the template of [example]. *)
Definition newlineInPath : Env :=
  {| flags := {| kind := "int";
                 generic := "x
/../github.com/fogfish/golem/stack/stack.go";
                 lib := true |};
     GOPATH := "/home/dev/go";
     ImportDir := inl {| Name := "numbers"; PkgRoot := "/home/dev/go/pkg" |};
     ReadFile := ReadFile (example true "int" true);
     Now := "2019-11-10 18:30:00.123456789 +0000 UTC";
     writable := fun _ => true |}.

(** The three comment lines [main] puts in front of the file. *)
Definition header (e : Env) : list bytes :=
  ["// Code generated by `golem` package";
   "// Source: " ++ generic (flags e);
   "// Time: " ++ Now e].

(** * Properties *)

(** ** The functions at work *)

Example declareType_stack :
  declareType "package stack

type genT interface{}

type AnyT struct { elements []genT }
" "int" = "package stack

type genInt int

type AnyT struct { elements []genInt }
".
Proof. vm_compute. reflexivity. Qed.

Example repackage_stack :
  repackage "// Package stack

package stack
import x
package last" "main" = "// Package stack

package main
import x
package last".
Proof. vm_compute. reflexivity. Qed.

Example repackage_dollar :
  repackage "package stack
" "a$1b${1}$$" = "package astack$
"
  /\ repackage "package stack
" "x${0}y" = "package xpackage stack
y
".
Proof. vm_compute. split; reflexivity. Qed.

Example Join_source :
  GoFilepath.Join ["/home/u/go"; "src"; "github.com/fogfish/golem/stack/stack.go"]
  = "/home/u/go/src/github.com/fogfish/golem/stack/stack.go".
Proof. vm_compute. reflexivity. Qed.

Example Clean_dots :
  GoFilepath.Clean "a//b/./c/../../d/" = "a/d"
  /\ GoFilepath.Clean "../../a/.." = "../.."
  /\ GoFilepath.Clean "/../a" = "/a"
  /\ GoFilepath.Clean "/" = "/"
  /\ GoFilepath.Clean "a/.." = ".".
Proof. vm_compute. repeat split; reflexivity. Qed.

Example names_app :
  names {| kind := "Stack"; generic := "x/stack.go"; lib := false |} "/go/src/x/stack.go"
  = ("stack", "stack.go", "Stack").
Proof. vm_compute. reflexivity. Qed.


(** ** Searching byte slices *)

(** A byte is not among the bytes of a literal. *)
Ltac not_among :=
  let H := fresh in
  intros H;
  repeat (apply elem_of_cons in H as [H|H]; [discriminate H|]);
  by apply elem_of_nil in H.

Section search.

Import GoBytes.

Lemma byte_eqb_true (x y : byte) : Byte.eqb x y = true <-> x = y.
Proof. split; [apply Byte.byte_dec_bl | apply Byte.byte_dec_lb]. Qed.

Lemma byte_eqb_refl (x : byte) : Byte.eqb x x = true.
Proof. by apply byte_eqb_true. Qed.

Lemma byte_eqb_false (x y : byte) : Byte.eqb x y = false <-> x <> y.
Proof.
  split; [apply Byte.eqb_false |].
  intros Hne. destruct (Byte.eqb x y) eqn:E; [|done].
  by apply byte_eqb_true in E.
Qed.

Lemma HasPrefix_prefix (s p : bytes) :
  HasPrefix s p = true <-> p `prefix_of` s.
Proof.
  revert s. induction p as [|a p IH]; intros s; simpl.
  - split; [intros _; apply prefix_nil | done].
  - destruct s as [|c s].
    + split; [done | intros H; by apply prefix_nil_not in H].
    + rewrite andb_true_iff, byte_eqb_true, IH. split.
      * intros [-> H]. by apply prefix_cons.
      * intros H. split; [symmetry; by eapply prefix_cons_inv_1
                         | by eapply prefix_cons_inv_2].
Qed.

Lemma HasPrefix_app (p t : bytes) : HasPrefix (p ++ t) p = true.
Proof. apply HasPrefix_prefix. by exists t. Qed.

Lemma HasPrefix_app_r (s p t : bytes) :
  HasPrefix s p = true -> HasPrefix (s ++ t) p = true.
Proof. rewrite !HasPrefix_prefix. apply prefix_app_r. Qed.

Lemma HasPrefix_length (s p : bytes) :
  HasPrefix s p = true -> length p <= length s.
Proof. rewrite HasPrefix_prefix. apply prefix_length. Qed.

Lemma HasPrefix_drop (s p : bytes) :
  HasPrefix s p = true -> s = p ++ drop (length p) s.
Proof.
  rewrite HasPrefix_prefix. intros [t ->]. by rewrite drop_app_length.
Qed.

(** A byte that is not in the pattern cannot be stepped over. *)
Lemma HasPrefix_app_sep (l t p : bytes) (c : byte) :
  c ∉ p -> HasPrefix (l ++ c :: t) p = HasPrefix l p.
Proof.
  revert l. induction p as [|a p IH]; intros l Hc; [done|].
  apply not_elem_of_cons in Hc as [Hca Hcp].
  destruct l as [|x l]; simpl.
  - apply byte_eqb_false in Hca. by rewrite Hca.
  - by rewrite IH.
Qed.

Lemma Index_cons (c : byte) (s sep : bytes) :
  Index (c :: s) sep
  = if HasPrefix (c :: s) sep then Some 0 else S <$> Index s sep.
Proof. done. Qed.

Lemma Index_here (s sep : bytes) :
  HasPrefix s sep = true -> Index s sep = Some 0.
Proof. intros H. destruct s; simpl; by rewrite H. Qed.

Lemma Index_Some_prefix (s sep : bytes) (j : nat) :
  Index s sep = Some j -> HasPrefix (drop j s) sep = true.
Proof.
  revert j. induction s as [|c s IH]; intros j.
  - simpl. destruct (HasPrefix [] sep) eqn:E; [|done].
    intros [= <-]. done.
  - rewrite Index_cons. destruct (HasPrefix (c :: s) sep) eqn:E.
    + intros [= <-]. done.
    + destruct (Index s sep) as [i|]; [|done].
      intros [= <-]. simpl. by apply IH.
Qed.

Lemma Index_Some_split (s sep : bytes) (j : nat) :
  Index s sep = Some j ->
  s = take j s ++ sep ++ drop (j + length sep) s.
Proof.
  intros H%Index_Some_prefix%HasPrefix_drop.
  rewrite <- drop_drop, <- H. by rewrite take_drop.
Qed.

Lemma Index_Some_length (s sep : bytes) (j : nat) :
  Index s sep = Some j -> j + length sep <= length s.
Proof.
  intros H. pose proof (Index_Some_prefix _ _ _ H) as Hp.
  apply HasPrefix_length in Hp. rewrite length_drop in Hp.
  destruct sep as [|a sep]; simpl in *; [|lia].
  destruct s; simpl in H; simplify_eq; simpl; lia.
Qed.

Lemma Index_Some_first (s sep : bytes) (j i : nat) :
  Index s sep = Some j -> i < j -> HasPrefix (drop i s) sep = false.
Proof.
  revert j i. induction s as [|c s IH]; intros j i.
  - simpl. destruct (HasPrefix [] sep); [|done]. intros [= <-]. lia.
  - rewrite Index_cons. destruct (HasPrefix (c :: s) sep) eqn:E.
    + intros [= <-]. lia.
    + destruct (Index s sep) as [k|] eqn:Ek; [|done].
      intros [= <-] Hi. destruct i as [|i]; [done|].
      simpl. eapply IH; [done | lia].
Qed.

Lemma Index_None_drop (s sep : bytes) (i : nat) :
  Index s sep = None -> HasPrefix (drop i s) sep = false.
Proof.
  revert i. induction s as [|c s IH]; intros i.
  - simpl. destruct (HasPrefix [] sep) eqn:E; [done|].
    intros _. by rewrite drop_nil.
  - rewrite Index_cons. destruct (HasPrefix (c :: s) sep) eqn:E; [done|].
    destruct (Index s sep) eqn:Ek; [done|]. intros _.
    destruct i as [|i]; [done|]. simpl. by apply IH.
Qed.

(** The instance found is the first one: the text in front of it,
    followed by all of [sep] but its last byte, holds no instance. *)
Lemma Index_app (u sep v : bytes) :
  sep <> [] ->
  (forall i, i < length u -> HasPrefix (drop i (u ++ sep ++ v)) sep = false) ->
  Index (u ++ sep ++ v) sep = Some (length u).
Proof.
  intros Hsep. induction u as [|c u IH]; intros Hu.
  - apply Index_here, (HasPrefix_app sep v).
  - change ((c :: u) ++ sep ++ v) with (c :: (u ++ sep ++ v)).
    rewrite Index_cons.
    pose proof (Hu 0 ltac:(simpl; lia)) as H0. simpl in H0. rewrite H0.
    rewrite IH; [done|]. intros i Hi. apply (Hu (S i)). simpl. lia.
Qed.

Lemma Contains_cons (c : byte) (s p : bytes) :
  Contains (c :: s) p = HasPrefix (c :: s) p || Contains s p.
Proof.
  unfold Contains. rewrite Index_cons.
  destruct (HasPrefix (c :: s) p); [done|].
  by destruct (Index s p).
Qed.

Lemma Contains_nil (p : bytes) : Contains [] p = HasPrefix [] p.
Proof. unfold Contains. simpl. by destruct (HasPrefix [] p). Qed.

Lemma Contains_false_drop (s p : bytes) :
  Contains s p = false <-> forall i, HasPrefix (drop i s) p = false.
Proof.
  unfold Contains. split.
  - destruct (Index s p) eqn:E; [done|]. intros _ i.
    by apply Index_None_drop.
  - intros H. destruct (Index s p) as [j|] eqn:E; [|done].
    apply Index_Some_prefix in E. by rewrite H in E.
Qed.

Lemma Contains_true_split (s p : bytes) :
  Contains s p = true <-> exists u v, s = u ++ p ++ v.
Proof.
  split.
  - unfold Contains. destruct (Index s p) as [j|] eqn:E; [|done].
    intros _. apply Index_Some_split in E. eauto.
  - intros (u & v & ->).
    destruct (Contains (u ++ p ++ v) p) eqn:E; [done|].
    rewrite Contains_false_drop in E. specialize (E (length u)).
    by rewrite drop_app_length, HasPrefix_app in E.
Qed.

Lemma Contains_false_app_l (u v p : bytes) :
  Contains (u ++ v) p = false -> Contains u p = false.
Proof.
  intros H. destruct (Contains u p) eqn:E; [|done].
  apply Contains_true_split in E as (a & b & ->).
  assert (Contains ((a ++ p ++ b) ++ v) p = true) as Ht; [|congruence].
  apply Contains_true_split. exists a, (b ++ v). by rewrite <- !app_assoc.
Qed.

Lemma Contains_false_app_r (u v p : bytes) :
  Contains (u ++ v) p = false -> Contains v p = false.
Proof.
  intros H. destruct (Contains v p) eqn:E; [|done].
  apply Contains_true_split in E as (a & b & ->).
  assert (Contains (u ++ a ++ p ++ b) p = true) as Ht; [|congruence].
  apply Contains_true_split. exists (u ++ a), b. by rewrite <- !app_assoc.
Qed.

End search.

(** ** [Count], [Replace], [ReplaceAll] and [Split] unfolded

    For a non-empty pattern the four functions walk the text in the same
    way: find the first instance, treat what is in front of it, go on
    behind it. *)

Section walk.

Import GoBytes.

Variable sep : bytes.
Hypothesis sep_nonempty : sep <> [].

Lemma Index_nil_None : Index [] sep = None.
Proof using sep_nonempty. by destruct sep. Qed.

Lemma skip_shorter (s : bytes) (j : nat) :
  Index s sep = Some j -> length (drop (j + length sep) s) < length s.
Proof using sep_nonempty.
  intros H%Index_Some_length. rewrite length_drop.
  destruct sep; [done|]. simpl in *. lia.
Qed.

(** Induction along the walk. *)
Lemma walk_ind (P : bytes -> Prop) :
  (forall s, Index s sep = None -> P s) ->
  (forall s j, Index s sep = Some j -> P (drop (j + length sep) s) -> P s) ->
  forall s, P s.
Proof using sep_nonempty.
  intros Hnone Hsome s.
  remember (length s) as n eqn:En. revert s En.
  induction n as [n IH] using lt_wf_ind. intros s ->.
  destruct (Index s sep) as [j|] eqn:E; [|by apply Hnone].
  apply (Hsome s j E). eapply IH; [|done]. by apply skip_shorter.
Qed.

Lemma Count_loop_fuel (f g : nat) (s : bytes) :
  length s <= f -> length s <= g ->
  Count_loop f s sep = Count_loop g s sep.
Proof using sep_nonempty.
  revert g s. induction f as [|f IH]; intros g s Hf Hg.
  - destruct s; [|simpl in Hf; lia].
    destruct g; cbn [Count_loop]; [done|]. by rewrite Index_nil_None.
  - destruct g as [|g].
    + destruct s; [|simpl in Hg; lia].
      cbn [Count_loop]. by rewrite Index_nil_None.
    + cbn [Count_loop]. destruct (Index s sep) as [j|] eqn:E; [|done].
      f_equal. pose proof (skip_shorter _ _ E). apply IH; lia.
Qed.

Lemma Count_eq (s : bytes) : Count s sep = Count_loop (length s) s sep.
Proof using sep_nonempty. unfold Count. by destruct sep. Qed.

Lemma Count_unfold (s : bytes) :
  Count s sep
  = match Index s sep with
    | None => 0
    | Some j => S (Count (drop (j + length sep) s) sep)
    end.
Proof using sep_nonempty.
  rewrite Count_eq. destruct s as [|c s].
  - cbn [Count_loop length]. by rewrite Index_nil_None.
  - cbn [Count_loop length].
    destruct (Index (c :: s) sep) as [j|] eqn:E; [|done].
    f_equal. pose proof (skip_shorter _ _ E) as Hl. rewrite Count_eq.
    apply Count_loop_fuel; simpl in *; lia.
Qed.

Lemma Replace_loop_step (new : bytes) (i n : nat) (s : bytes) :
  Replace_loop sep new i (S n) s
  = let j := default 0 (Index s sep) in
    take j s ++ new ++ Replace_loop sep new (S i) n (drop (j + length sep) s).
Proof using sep_nonempty. cbn [Replace_loop]. by destruct sep. Qed.

Lemma Replace_loop_round (new : bytes) (i n : nat) (s : bytes) :
  Replace_loop sep new i n s = Replace_loop sep new 0 n s.
Proof using sep_nonempty.
  revert i s. induction n as [|n IH]; intros i s; [done|].
  rewrite !Replace_loop_step. cbn zeta. by rewrite (IH (S i)), (IH 1).
Qed.

Lemma ReplaceAll_unfold (new s : bytes) :
  ReplaceAll s sep new
  = match Index s sep with
    | None => s
    | Some j => take j s ++ new ++ ReplaceAll (drop (j + length sep) s) sep new
    end.
Proof using sep_nonempty.
  unfold ReplaceAll, Replace.
  change ((-1 =? 0)%Z) with false. cbn iota.
  change ((-1 <? 0)%Z) with true. cbn [orb]. cbn iota.
  rewrite (Count_unfold s).
  destruct (Index s sep) as [j|] eqn:E; [|done].
  cbn [Nat.eqb]. rewrite Replace_loop_step, E. cbn [default]. cbn zeta.
  rewrite Replace_loop_round. repeat f_equal.
  by destruct (Count (drop (j + length sep) s) sep).
Qed.

Lemma Replace_once (new s : bytes) :
  Replace s sep new 1
  = match Index s sep with
    | None => s
    | Some j => take j s ++ new ++ drop (j + length sep) s
    end.
Proof using sep_nonempty.
  unfold Replace.
  change ((1 =? 0)%Z) with false. cbn iota.
  change ((1 <? 0)%Z) with false. cbn [orb].
  rewrite (Count_unfold s).
  destruct (Index s sep) as [j|] eqn:E; [|done].
  cbn [Nat.eqb].
  replace (Z.of_nat (S (Count (drop (j + length sep) s) sep)) <? 1)%Z
    with false by (symmetry; apply Z.ltb_ge; lia).
  change (Z.to_nat 1) with 1.
  rewrite Replace_loop_step, E. done.
Qed.

Lemma Split_unfold (s : bytes) :
  Split s sep
  = match Index s sep with
    | None => [s]
    | Some j => take j s :: Split (drop (j + length sep) s) sep
    end.
Proof using sep_nonempty.
  unfold Split. rewrite (Count_unfold s).
  destruct (Index s sep) as [j|] eqn:E; cbn [Split_loop];
    [by rewrite E | done].
Qed.

Lemma Split_nonempty (s : bytes) : Split s sep <> [].
Proof using sep_nonempty.
  rewrite Split_unfold. by destruct (Index s sep).
Qed.

Lemma Join_cons (p : bytes) (l : list bytes) (x : bytes) :
  l <> [] -> Join (p :: l) x = p ++ x ++ Join l x.
Proof. by destruct l. Qed.

(** Replacing every instance is cutting at the instances and joining
    the pieces with the replacement. *)
Lemma ReplaceAll_Join_Split (new s : bytes) :
  ReplaceAll s sep new = Join (Split s sep) new.
Proof using sep_nonempty.
  induction s as [s E|s j E IH] using walk_ind;
    rewrite ReplaceAll_unfold, Split_unfold, E; [done|].
  rewrite Join_cons by apply Split_nonempty. by rewrite IH.
Qed.

Lemma Join_Split (s : bytes) : Join (Split s sep) sep = s.
Proof using sep_nonempty.
  induction s as [s E|s j E IH] using walk_ind;
    rewrite Split_unfold, E; [done|].
  rewrite Join_cons by apply Split_nonempty. rewrite IH.
  symmetry. by apply Index_Some_split.
Qed.

Lemma Index_Some_before (s : bytes) (j : nat) :
  Index s sep = Some j -> Contains (take j s) sep = false.
Proof using sep_nonempty.
  intros E. apply Contains_false_drop. intros i.
  destruct (HasPrefix (drop i (take j s)) sep) eqn:Hp; [|done].
  assert (i < j) as Hi.
  { apply HasPrefix_length in Hp. rewrite length_drop, length_take in Hp.
    destruct sep; [done|]. simpl in Hp. lia. }
  assert (HasPrefix (drop i s) sep = true) as Ht.
  { rewrite <- (take_drop j s), drop_app_le.
    - by apply HasPrefix_app_r.
    - rewrite length_take. apply Index_Some_length in E. lia. }
  by rewrite (Index_Some_first _ _ _ _ E Hi) in Ht.
Qed.

Lemma Split_pieces (s : bytes) :
  Forall (fun p => Contains p sep = false) (Split s sep).
Proof using sep_nonempty.
  induction s as [s E|s j E IH] using walk_ind; rewrite Split_unfold, E.
  - apply Forall_singleton. unfold Contains. by rewrite E.
  - apply Forall_cons. split; [by apply Index_Some_before | done].
Qed.

End walk.

(** ** The package clause pattern *)

Section clause.

Import GoBytes GoRegexp.

Lemma IndexByte_Some (s : bytes) (c : byte) (j : nat) :
  IndexByte s c = Some j ->
  s = take j s ++ c :: drop (S j) s /\ c ∉ take j s.
Proof.
  revert j. induction s as [|x s IH]; intros j; [done|]. simpl.
  destruct (Byte.eqb x c) eqn:E.
  - intros [= <-]. apply byte_eqb_true in E as ->. split; [done|].
    simpl. apply not_elem_of_nil.
  - destruct (IndexByte s c) as [i|]; [|done]. intros [= <-].
    destruct (IH i eq_refl) as [Hs Hn]. simpl. split; [by f_equal|].
    apply not_elem_of_cons. split; [|done].
    apply byte_eqb_false in E. congruence.
Qed.

Lemma IndexByte_None (s : bytes) (c : byte) :
  IndexByte s c = None <-> c ∉ s.
Proof.
  induction s as [|x s IH]; simpl.
  - split; [intros _; apply not_elem_of_nil | done].
  - rewrite not_elem_of_cons. destruct (Byte.eqb x c) eqn:E.
    + apply byte_eqb_true in E as ->. split; [done | intros [? _]; done].
    + apply byte_eqb_false in E. rewrite <- IH.
      destruct (IndexByte s c); simpl.
      * split; [done | intros [_ ?]; done].
      * split; [intros _; split; [congruence | done] | done].
Qed.

Lemma IndexByte_app (q t : bytes) (c : byte) :
  c ∉ q -> IndexByte (q ++ c :: t) c = Some (length q).
Proof.
  induction q as [|x q IH]; intros Hq; simpl.
  - by rewrite byte_eqb_refl.
  - apply not_elem_of_cons in Hq as [Hx Hq].
    assert (Byte.eqb x c = false) as -> by (apply byte_eqb_false; congruence).
    by rewrite IH.
Qed.

Lemma closing_other (start : nat) (c : byte) (s : bytes) (pos : nat)
    (caps : captures) :
  c <> NL -> closing start (c :: s) pos caps = None.
Proof.
  intros Hc. unfold closing. simpl.
  apply byte_eqb_false in Hc. by rewrite Hc.
Qed.

(** The star runs to the end of the line and gives nothing back: the
    continuation accepts at the first newline or not at all. *)
Lemma star_line (start : nat) (q t : bytes) (fuel pos : nat) (caps : captures) :
  NL ∉ q ->
  t = [] \/ (exists t', t = NL :: t') ->
  length q <= fuel ->
  star (run OpAnyCharNotNL) (closing start) fuel (q ++ t) pos caps
  = closing start t (pos + length q) caps.
Proof.
  revert fuel pos. induction q as [|c q IH]; intros fuel pos Hq Ht Hf.
  - rewrite Nat.add_0_r. simpl app. destruct fuel as [|fuel]; [done|].
    cbn [star run]. destruct Ht as [->|[t' ->]]; [done|].
    by rewrite byte_eqb_refl.
  - apply not_elem_of_cons in Hq as [Hc Hq].
    destruct fuel as [|fuel]; [simpl in Hf; lia|].
    change ((c :: q) ++ t) with (c :: (q ++ t)). cbn [star run].
    assert (Byte.eqb c NL = false) as -> by (apply byte_eqb_false; congruence).
    assert ((S pos =? pos) = false) as -> by (apply Nat.eqb_neq; lia).
    rewrite IH by (simpl in Hf; try done; lia).
    replace (S pos + length q) with (pos + length (c :: q)) by (simpl; lia).
    destruct (closing start t (pos + length (c :: q)) caps); [done|].
    apply closing_other. congruence.
Qed.

Lemma run_packageClause (s : bytes) (pos : nat) :
  run packageClause s pos [] accept
  = (fun j => (pos + 8 + j + 1, [(1, (pos + 8, pos + 8 + j))])) <$> clauseAt s.
Proof.
  change (run packageClause s pos [] accept)
    with (if HasPrefix s "package "
          then star (run OpAnyCharNotNL) (closing (pos + 8))
                 (length (drop 8 s)) (drop 8 s) (pos + 8) []
          else None).
  unfold clauseAt.
  destruct (HasPrefix s "package ") eqn:Hp; [|done].
  set (s1 := drop 8 s).
  destruct (IndexByte s1 NL) as [j|] eqn:Ej.
  - apply IndexByte_Some in Ej as [Hs Hq].
    rewrite Hs at 2.
    rewrite star_line; [| done | right; eauto | rewrite length_take; lia].
    unfold closing. cbn [run HasPrefix]. rewrite byte_eqb_refl. simpl.
    unfold accept. repeat f_equal.
    all: rewrite length_take; apply (f_equal length) in Hs;
      rewrite length_app, length_take in Hs; simpl in Hs; lia.
  - apply IndexByte_None in Ej.
    rewrite <- (app_nil_r s1) at 2.
    rewrite star_line; [| done | by left | lia]. done.
Qed.

Lemma clauseAt_length (s : bytes) (j : nat) :
  clauseAt s = Some j -> 8 + j + 1 <= length s.
Proof.
  unfold clauseAt. destruct (HasPrefix s "package ") eqn:Hp; [|done].
  intros [Hs _]%IndexByte_Some. apply (f_equal length) in Hs.
  rewrite length_app, length_take, length_drop in Hs. simpl in Hs.
  apply HasPrefix_length in Hp. simpl in Hp.
  rewrite length_drop in Hs. lia.
Qed.

Lemma search_cons (c : byte) (s : bytes) (off : nat) :
  search packageClause (c :: s) off
  = match clauseAt (c :: s) with
    | Some j =>
        Some (off, off + 8 + j + 1,
              [(0, (off, off + 8 + j + 1)); (1, (off + 8, off + 8 + j))])
    | None => search packageClause s (S off)
    end.
Proof.
  cbn [search]. rewrite run_packageClause.
  by destruct (clauseAt (c :: s)).
Qed.

Lemma search_nil (off : nat) : search packageClause [] off = None.
Proof. done. Qed.

(** Text in which no match begins is stepped over. *)
Lemma search_skip (u s : bytes) (off : nat) :
  (forall i, i < length u -> clauseAt (drop i (u ++ s)) = None) ->
  search packageClause (u ++ s) off = search packageClause s (off + length u).
Proof.
  revert off. induction u as [|c u IH]; intros off Hu.
  - by rewrite Nat.add_0_r.
  - change ((c :: u) ++ s) with (c :: (u ++ s)). rewrite search_cons.
    pose proof (Hu 0 ltac:(simpl; lia)) as H0. simpl in H0. rewrite H0.
    rewrite IH.
    + f_equal. simpl. lia.
    + intros i Hi. apply (Hu (S i)). simpl. lia.
Qed.

Lemma search_None (s : bytes) (off : nat) :
  (forall i, clauseAt (drop i s) = None) ->
  search packageClause s off = None.
Proof.
  intros H. rewrite <- (app_nil_r s).
  rewrite search_skip; [done|]. intros i _. by rewrite app_nil_r.
Qed.

Lemma search_here (s : bytes) (off j : nat) :
  clauseAt s = Some j ->
  search packageClause s off
  = Some (off, off + 8 + j + 1,
          [(0, (off, off + 8 + j + 1)); (1, (off + 8, off + 8 + j))]).
Proof.
  intros H. destruct s as [|c s]; [done|].
  by rewrite search_cons, H.
Qed.

Lemma search_bounds (s : bytes) (off a0 a1 : nat) (caps : captures) :
  search packageClause s off = Some (a0, a1, caps) ->
  off <= a0 /\ a0 + 9 <= a1 /\ a1 <= off + length s.
Proof.
  revert off. induction s as [|c s IH]; intros off; [done|].
  rewrite search_cons. destruct (clauseAt (c :: s)) as [j|] eqn:E.
  - intros [= <- <- <-]. apply clauseAt_length in E. lia.
  - intros H%IH. simpl. lia.
Qed.

End clause.

(** ** [repackage] unfolded *)

Section rewriting.

Import GoBytes GoRegexp.

Lemma expand_plain (fuel : nat) (template src : bytes) (caps : captures) :
  IndexByte template "$" = None -> expand fuel template src caps = template.
Proof. intros H. destruct fuel; simpl; [done|]. by rewrite H. Qed.

Lemma clauseFor_plain (pkg : bytes) :
  IndexByte pkg "$" = None -> IndexByte (clauseFor pkg) "$" = None.
Proof.
  rewrite !IndexByte_None. unfold clauseFor. intros H.
  rewrite !not_elem_of_app. split_and!; [|done|]; not_among.
Qed.

(** A match of the pattern is never empty, so every round of the loop
    inserts the replacement and goes on behind the match. *)
Lemma replaceAll_loop_round (repl : bytes) (fuel : nat) (atStart : bool)
    (s : bytes) :
  replaceAll_loop packageClause repl (S fuel) atStart [] s
  = match doExecute packageClause s with
    | None => s
    | Some (a0, a1, caps) =>
        take a0 s ++ expand (length repl) repl s caps
        ++ replaceAll_loop packageClause repl fuel false [] (drop a1 s)
    end.
Proof.
  cbn [replaceAll_loop].
  destruct (doExecute packageClause s) as [[[a0 a1] caps]|] eqn:E; [|done].
  apply search_bounds in E as (_ & Ha & _).
  assert ((0 <? length (@nil byte) + a1) = true) as ->
    by (apply Nat.ltb_lt; simpl; lia).
  assert ((a1 =? 0) = false) as -> by (apply Nat.eqb_neq; lia).
  done.
Qed.

Lemma replaceAll_loop_fuel (repl : bytes) (f g : nat) (b b' : bool)
    (s : bytes) :
  length s < f -> length s < g ->
  replaceAll_loop packageClause repl f b [] s
  = replaceAll_loop packageClause repl g b' [] s.
Proof.
  revert g b b' s. induction f as [|f IH]; intros g b b' s Hf Hg; [lia|].
  destruct g as [|g]; [lia|]. rewrite !replaceAll_loop_round.
  destruct (doExecute packageClause s) as [[[a0 a1] caps]|] eqn:E; [|done].
  apply search_bounds in E as (_ & Ha & Hb). simpl in Hb.
  do 2 f_equal. apply IH; rewrite length_drop; lia.
Qed.

Lemma repackage_unfold (s pkg : bytes) :
  repackage s pkg
  = match doExecute packageClause s with
    | None => s
    | Some (a0, a1, caps) =>
        take a0 s
        ++ expand (length (clauseFor pkg)) (clauseFor pkg) s caps
        ++ repackage (drop a1 s) pkg
    end.
Proof.
  unfold repackage, ReplaceAll. fold (clauseFor pkg).
  rewrite replaceAll_loop_round.
  destruct (doExecute packageClause s) as [[[a0 a1] caps]|] eqn:E; [|done].
  apply search_bounds in E as (_ & Ha & Hb). simpl in Hb.
  do 2 f_equal. apply replaceAll_loop_fuel; rewrite length_drop; lia.
Qed.

Lemma repackage_none (s pkg : bytes) :
  doExecute packageClause s = None -> repackage s pkg = s.
Proof. intros E. by rewrite repackage_unfold, E. Qed.

(** Induction along the matches of the pattern. *)
Lemma matches_ind (P : bytes -> Prop) :
  (forall s, doExecute packageClause s = None -> P s) ->
  (forall s a0 a1 caps,
     doExecute packageClause s = Some (a0, a1, caps) ->
     P (drop a1 s) -> P s) ->
  forall s, P s.
Proof.
  intros Hnone Hsome s.
  remember (length s) as n eqn:En. revert s En.
  induction n as [n IH] using lt_wf_ind. intros s ->.
  destruct (doExecute packageClause s) as [[[a0 a1] caps]|] eqn:E;
    [|by apply Hnone].
  apply (Hsome s a0 a1 caps E). eapply IH; [|done].
  apply search_bounds in E as (_ & Ha & Hb). simpl in Hb.
  rewrite length_drop. lia.
Qed.

End rewriting.

(** ** Where the alias token can and cannot reappear *)

Section alias.

Import GoBytes.

(** A byte foreign to the pattern separates the text into two parts that
    are searched on their own. *)
Lemma Contains_sep (u v p : bytes) (c : byte) :
  c ∉ p ->
  Contains u p = false -> Contains v p = false ->
  Contains (u ++ c :: v) p = false.
Proof.
  intros Hc Hu Hv. induction u as [|x u IH].
  - simpl app. rewrite Contains_cons, Hv, orb_false_r.
    destruct p as [|a p]; [done|]. simpl.
    apply not_elem_of_cons in Hc as [Hc _].
    apply byte_eqb_false in Hc. by rewrite Hc.
  - rewrite Contains_cons in Hu. apply orb_false_iff in Hu as [Hx Hu].
    change ((x :: u) ++ c :: v) with (x :: (u ++ c :: v)).
    rewrite Contains_cons, (IH Hu), orb_false_r.
    change (x :: (u ++ c :: v)) with ((x :: u) ++ c :: v).
    by rewrite HasPrefix_app_sep.
Qed.

(** No instance begins in a text that lacks the first byte of the
    pattern. *)
Lemma Contains_skip (t v p : bytes) (a : byte) :
  a ∉ t ->
  Contains v (a :: p) = false ->
  Contains (t ++ v) (a :: p) = false.
Proof.
  intros Ht Hv. induction t as [|x t IH]; [done|].
  apply not_elem_of_cons in Ht as [Hx Ht].
  change ((x :: t) ++ v) with (x :: (t ++ v)).
  rewrite Contains_cons, (IH Ht), orb_false_r. simpl.
  assert (Byte.eqb x a = false) as -> by (apply byte_eqb_false; congruence).
  done.
Qed.

(** The text in front of the instance found, followed by the pattern
    without its last byte, holds no instance. *)
Lemma Index_Some_front (s front : bytes) (x : byte) (j : nat) :
  Index s (front ++ [x]) = Some j ->
  Contains (take j s ++ front) (front ++ [x]) = false.
Proof.
  intros E. apply Contains_false_drop. intros i.
  destruct (HasPrefix (drop i (take j s ++ front)) (front ++ [x])) eqn:Hp;
    [|done].
  pose proof (Index_Some_length _ _ _ E) as Hl.
  assert (i < j) as Hi.
  { apply HasPrefix_length in Hp.
    rewrite length_drop, !length_app, length_take in Hp.
    rewrite length_app in Hl. simpl in *. lia. }
  assert (HasPrefix (drop i s) (front ++ [x]) = true) as Ht.
  { rewrite (Index_Some_split _ _ _ E).
    rewrite <- (app_assoc front [x]), (app_assoc (take j s) front).
    rewrite drop_app_le by (rewrite length_app, length_take; lia).
    by apply HasPrefix_app_r. }
  by rewrite (Index_Some_first _ _ _ _ E Hi) in Ht.
Qed.

Lemma aliasToken_nonempty : aliasToken <> [].
Proof. done. Qed.

Lemma typeToken_nonempty : typeToken <> [].
Proof. done. Qed.

Lemma aliasDecl_nonempty : aliasDecl <> [].
Proof. done. Qed.

Lemma aliasSafe_inv (name : bytes) :
  aliasSafe name = true ->
  exists c rest, name = c :: rest /\ (c ∉ aliasToken) /\ (("g"%byte) ∉ rest).
Proof.
  destruct name as [|c rest]; [done|]. cbn [aliasSafe].
  destruct (IndexByte aliasToken c) eqn:Ec; [done|].
  destruct (IndexByte rest "g") eqn:Eg; [done|]. intros _.
  exists c, rest. by rewrite <- !IndexByte_None.
Qed.

(** Inserting a safe name, possibly behind [gen], between two texts free
    of the token leaves the whole free of it. *)
Lemma insert_safe (u name v : bytes) :
  aliasSafe name = true ->
  Contains u aliasToken = false ->
  Contains v aliasToken = false ->
  Contains (u ++ name ++ v) aliasToken = false.
Proof.
  intros (c & rest & -> & Hc & Hg)%aliasSafe_inv Hu Hv.
  change ((c :: rest) ++ v) with (c :: (rest ++ v)).
  apply Contains_sep; [done..|].
  by apply (Contains_skip rest v "enT" "g").
Qed.

Lemma ReplaceAll_alias_clear (s name : bytes) :
  aliasSafe name = true ->
  Contains (ReplaceAll s aliasToken ("gen" ++ name)) aliasToken = false.
Proof.
  intros Hname.
  induction s as [s E|s j E IH] using (walk_ind _ aliasToken_nonempty);
    rewrite (ReplaceAll_unfold _ aliasToken_nonempty), E.
  - unfold Contains. by rewrite E.
  - rewrite <- (app_assoc "gen" name), (app_assoc (take j s) "gen").
    apply insert_safe; [done| |done].
    by apply (Index_Some_front s "gen" "T").
Qed.

Lemma declareType_clear (file kind : bytes) :
  aliasSafe (GoStrings.Title kind) = true ->
  Contains (declareType file kind) aliasToken = false.
Proof. intros H. by apply ReplaceAll_alias_clear. Qed.

Lemma referenceType_clear (file typename : bytes) :
  aliasSafe typename = true ->
  Contains file aliasToken = false ->
  Contains (referenceType file typename) aliasToken = false.
Proof.
  intros Hname. unfold referenceType.
  induction file as [s E|s j E IH] using (walk_ind _ typeToken_nonempty);
    rewrite (ReplaceAll_unfold _ typeToken_nonempty), E; [done|].
  intros Hs. rewrite (Index_Some_split _ _ _ E) in Hs.
  apply insert_safe; [done|..].
  - by apply Contains_false_app_l in Hs.
  - apply IH. by do 2 apply Contains_false_app_r in Hs.
Qed.

Lemma repackage_clear (file pkg : bytes) :
  IndexByte pkg "$" = None ->
  Contains pkg aliasToken = false ->
  Contains file aliasToken = false ->
  Contains (repackage file pkg) aliasToken = false.
Proof.
  intros Hplain Hpkg.
  induction file as [s E|s a0 a1 caps E IH] using matches_ind;
    rewrite repackage_unfold, E; [done|].
  intros Hs. rewrite expand_plain by by apply clauseFor_plain.
  pose proof (search_bounds _ _ _ _ _ E) as (_ & Ha & Hb). simpl in Hb.
  rewrite <- (take_drop a1 s) in Hs.
  pose proof (Contains_false_app_r _ _ _ Hs) as Hrest.
  apply Contains_false_app_l in Hs.
  rewrite <- (take_drop a0 (take a1 s)), take_take in Hs.
  replace (a0 `min` a1) with a0 in Hs by lia.
  apply Contains_false_app_l in Hs.
  assert (take a0 s ++ clauseFor pkg ++ repackage (drop a1 s) pkg
          = take a0 s ++ "p"%byte
              :: ("ackage" ++ " "%byte
                    :: (pkg ++ NL :: repackage (drop a1 s) pkg))) as ->.
  { unfold clauseFor. by rewrite <- !app_assoc. }
  apply Contains_sep; [not_among | done |].
  apply Contains_sep; [not_among | done |].
  apply Contains_sep; [not_among | done |]. by apply IH.
Qed.

End alias.

(** ** [repackage], line by line *)

Section lines.

Import GoBytes GoRegexp.

Lemma search_offset (s : bytes) (off : nat) :
  search packageClause s off
  = match search packageClause s 0 with
    | None => None
    | Some (a0, a1, _) =>
        Some (off + a0, off + a1,
              [(0, (off + a0, off + a1)); (1, (off + a0 + 8, off + a1 - 1))])
    end.
Proof.
  revert off. induction s as [|c s IH]; intros off; [done|].
  rewrite !search_cons. destruct (clauseAt (c :: s)) as [j|] eqn:E.
  - repeat first [lia | f_equal].
  - rewrite (IH (S off)), (IH 1).
    destruct (search packageClause s 0) as [[[a0 a1] caps]|]; [|done].
    repeat first [lia | f_equal].
Qed.

Lemma search_found (s : bytes) (i j off : nat) :
  clauseAt (drop i s) = Some j -> search packageClause s off <> None.
Proof.
  revert i off. induction s as [|c s IH]; intros i off.
  - by rewrite drop_nil.
  - rewrite search_cons. destruct i as [|i]; simpl drop.
    + by intros ->.
    + destruct (clauseAt (c :: s)); [done|]. apply IH.
Qed.

Lemma clauseAt_literal (q v : bytes) :
  clauseAt ("package " ++ q ++ v) = IndexByte (q ++ v) NL.
Proof.
  unfold clauseAt. by rewrite (HasPrefix_app "package " (q ++ v)).
Qed.

(** The pattern matches somewhere exactly when the text holds [package ],
    then anything, then a newline. *)
Lemma doExecute_None (s : bytes) :
  doExecute packageClause s = None
  <-> forall u q v, s <> u ++ "package " ++ q ++ NL :: v.
Proof.
  split.
  - intros Hnone u q v ->. revert Hnone.
    destruct (IndexByte (q ++ NL :: v) NL) as [j|] eqn:Ej.
    + apply (search_found _ (length u) j).
      by rewrite drop_app_length, clauseAt_literal.
    + apply IndexByte_None in Ej. destruct Ej.
      apply elem_of_app. right. apply elem_of_cons. by left.
  - intros H. apply search_None. intros i. unfold clauseAt.
    destruct (HasPrefix (drop i s) "package ") eqn:Hp; [|done].
    destruct (IndexByte (drop 8 (drop i s)) NL) as [j|] eqn:Ej; [|done].
    apply HasPrefix_drop in Hp. apply IndexByte_Some in Ej as [Hq _].
    destruct (H (take i s) (take j (drop 8 (drop i s)))
                (drop (S j) (drop 8 (drop i s)))).
    rewrite <- Hq. change (drop 8 (drop i s)) with (drop (length "package ") (drop i s)).
    rewrite <- Hp. by rewrite take_drop.
Qed.

Lemma clauseAt_no_newline (s : bytes) :
  NL ∉ s -> clauseAt s = None.
Proof.
  intros H. unfold clauseAt. destruct (HasPrefix s "package "); [|done].
  apply IndexByte_None. intros Hin. apply H.
  rewrite <- (take_drop 8 s). apply elem_of_app. by right.
Qed.

Lemma repackage_no_newline (s pkg : bytes) :
  NL ∉ s -> repackage s pkg = s.
Proof.
  intros H. apply repackage_none, search_None. intros i.
  apply clauseAt_no_newline. intros Hin. apply H.
  rewrite <- (take_drop i s). apply elem_of_app. by right.
Qed.

(** A stretch of text in which no match begins is copied. *)
Lemma repackage_skip (n : nat) (s pkg : bytes) :
  IndexByte pkg "$" = None ->
  n <= length s ->
  (forall k, k < n -> clauseAt (drop k s) = None) ->
  repackage s pkg = take n s ++ repackage (drop n s) pkg.
Proof.
  intros Hplain Hn Hk.
  assert (search packageClause s 0 = search packageClause (drop n s) (0 + n))
    as Hs.
  { rewrite <- (take_drop n s) at 1. rewrite search_skip.
    - by rewrite length_take_le.
    - intros k. rewrite length_take, take_drop. intros Hlt. apply Hk. lia. }
  rewrite (repackage_unfold s), (repackage_unfold (drop n s)).
  unfold doExecute. rewrite Hs, search_offset.
  destruct (search packageClause (drop n s) 0) as [[[a0 a1] caps]|] eqn:E;
    [|by rewrite take_drop].
  rewrite !expand_plain by by apply clauseFor_plain.
  rewrite <- take_take_drop, <- app_assoc. by rewrite drop_drop.
Qed.

(** The rewrite of a text whose first line holds the clause: the match
    runs from the first [package ] through the end of that line. *)
Lemma repackage_clause (q v pkg : bytes) :
  IndexByte pkg "$" = None ->
  NL ∉ q ->
  repackage ("package " ++ q ++ NL :: v) pkg
  = "package " ++ pkg ++ NL :: repackage v pkg.
Proof.
  intros Hplain Hq.
  assert (clauseAt ("package " ++ q ++ NL :: v) = Some (length q)) as Hc
    by (rewrite clauseAt_literal; by apply IndexByte_app).
  rewrite repackage_unfold. unfold doExecute.
  rewrite (search_here _ 0 (length q) Hc).
  rewrite expand_plain by by apply clauseFor_plain.
  assert (drop (0 + 8 + length q + 1) ("package " ++ q ++ NL :: v) = v) as ->.
  { change (NL :: v) with ([NL] ++ v). rewrite !app_assoc.
    apply drop_app_length'. rewrite !length_app. simpl. lia. }
  rewrite take_0. unfold clauseFor. by rewrite <- !app_assoc.
Qed.

Lemma HasPrefix_line (l v : bytes) (k : nat) :
  k <= length l ->
  HasPrefix (drop k (l ++ NL :: v)) "package " = HasPrefix (drop k l) "package ".
Proof.
  intros Hk. rewrite drop_app_le by done.
  apply HasPrefix_app_sep. not_among.
Qed.

Lemma repackage_line (l v pkg : bytes) :
  IndexByte pkg "$" = None ->
  NL ∉ l ->
  repackage (l ++ NL :: v) pkg = reline pkg l ++ NL :: repackage v pkg.
Proof.
  intros Hplain Hl. unfold reline.
  destruct (Index l "package ") as [i|] eqn:E.
  - pose proof (Index_Some_length _ _ _ E) as Hi. simpl in Hi.
    rewrite (repackage_skip i) by first
      [ done
      | rewrite length_app; lia
      | intros k Hk; unfold clauseAt;
        rewrite HasPrefix_line by lia;
        by rewrite (Index_Some_first _ _ _ _ E Hk) ].
    rewrite take_app_le, drop_app_le by lia.
    pose proof (HasPrefix_drop _ _ (Index_Some_prefix _ _ _ E)) as Hd.
    rewrite Hd, <- !app_assoc, repackage_clause; [done..|].
    intros Hin. apply Hl. rewrite <- (take_drop i l), Hd.
    rewrite !elem_of_app. auto.
  - rewrite (repackage_skip (S (length l))) by first
      [ done
      | rewrite length_app; simpl; lia
      | intros k Hk; unfold clauseAt;
        rewrite HasPrefix_line by lia;
        by rewrite (Index_None_drop _ _ _ E) ].
    change (NL :: v) with ([NL] ++ v). rewrite app_assoc.
    replace (S (length l)) with (length (l ++ [NL]))
      by (rewrite length_app; simpl; lia).
    by rewrite take_app_length, drop_app_length, <- app_assoc.
Qed.

End lines.

(** ** Replacing in a text made of two parts *)

Section parts.

Import GoBytes.

Variable sep : bytes.
Hypothesis sep_nonempty : sep <> [].

Lemma HasPrefix_app_short (s t p : bytes) :
  length p <= length s -> HasPrefix (s ++ t) p = HasPrefix s p.
Proof.
  revert s. induction p as [|a p IH]; intros s Hl; [done|].
  destruct s as [|c s]; [simpl in Hl; lia|]. simpl.
  rewrite IH; [done | simpl in Hl; lia].
Qed.

Lemma contained_inside (u v : bytes) (i : nat) :
  contained sep u v -> i < length u ->
  HasPrefix (drop i (u ++ v)) sep = HasPrefix (drop i u) sep.
Proof.
  intros Hc Hi. rewrite drop_app_le by lia.
  destruct (HasPrefix (drop i u ++ v) sep) eqn:E.
  - rewrite <- E. apply HasPrefix_app_short.
    rewrite <- drop_app_le in E by lia. apply Hc in E; [|done].
    rewrite length_drop. lia.
  - destruct (HasPrefix (drop i u) sep) eqn:E'; [|done].
    by rewrite (HasPrefix_app_r _ _ v E') in E.
Qed.

Lemma Index_app_within (u v : bytes) (j : nat) :
  contained sep u v -> Index u sep = Some j -> Index (u ++ v) sep = Some j.
Proof using sep_nonempty.
  intros Hc E. pose proof (Index_Some_length _ _ _ E) as Hl.
  assert (forall i, i < j -> HasPrefix (drop i (u ++ v)) sep = false) as Hi.
  { intros i Hi. rewrite contained_inside by (done || lia).
    by apply (Index_Some_first _ _ j). }
  rewrite (Index_Some_split _ _ _ E) in Hi |- *.
  rewrite <- !app_assoc in Hi |- *.
  rewrite (Index_app (take j u)); [|done|].
  - f_equal. rewrite length_take. lia.
  - intros i. rewrite length_take. intros Hlt. apply Hi. lia.
Qed.

Lemma Index_app_beyond (u v : bytes) :
  (forall i, i < length u -> HasPrefix (drop i (u ++ v)) sep = false) ->
  Index (u ++ v) sep = (fun k => length u + k) <$> Index v sep.
Proof.
  induction u as [|c u IH]; intros Hu.
  - simpl. by destruct (Index v sep).
  - change ((c :: u) ++ v) with (c :: (u ++ v)). rewrite Index_cons.
    pose proof (Hu 0 ltac:(simpl; lia)) as H0. simpl in H0. rewrite H0.
    rewrite IH by (intros i Hi; apply (Hu (S i)); simpl; lia).
    by destruct (Index v sep).
Qed.

Lemma contained_skip (u v : bytes) (n : nat) :
  contained sep u v -> n <= length u -> contained sep (drop n u) v.
Proof.
  intros Hc Hn i. rewrite length_drop. intros Hi.
  rewrite <- drop_app_le, drop_drop by done.
  intros H%Hc; lia.
Qed.

(** When no instance of [sep] lies across the two parts, they are
    rewritten independently. *)
Lemma ReplaceAll_app (new u v : bytes) :
  contained sep u v ->
  ReplaceAll (u ++ v) sep new = ReplaceAll u sep new ++ ReplaceAll v sep new.
Proof using sep_nonempty.
  induction u as [u E|u j E IH] using (walk_ind sep sep_nonempty); intros Hc.
  - rewrite (ReplaceAll_unfold _ sep_nonempty new (u ++ v)).
    rewrite (ReplaceAll_unfold _ sep_nonempty new u), E.
    rewrite (ReplaceAll_unfold _ sep_nonempty new v).
    rewrite Index_app_beyond.
    + destruct (Index v sep) as [k|]; [|done]. simpl.
      rewrite take_app_add, <- Nat.add_assoc, drop_app_add.
      by rewrite <- app_assoc.
    + intros i Hi. rewrite contained_inside by done.
      by apply Index_None_drop.
  - pose proof (Index_Some_length _ _ _ E) as Hl.
    rewrite (ReplaceAll_unfold _ sep_nonempty new (u ++ v)).
    rewrite (ReplaceAll_unfold _ sep_nonempty new u), E.
    rewrite (Index_app_within _ _ _ Hc E).
    rewrite take_app_le, drop_app_le by lia.
    rewrite IH by (by apply contained_skip).
    by rewrite <- !app_assoc.
Qed.

Lemma ReplaceAll_none (new s : bytes) :
  Index s sep = None -> ReplaceAll s sep new = s.
Proof using sep_nonempty.
  intros E. by rewrite (ReplaceAll_unfold _ sep_nonempty), E.
Qed.

End parts.

(** * The claims *)

Section claims.

Import GoBytes.

(** C1, as stated, fails: the template below holds the placeholder
    declaration, and instantiated for a type named [T] its alias is again
    called [genT], so the token is still in the output. *)
Lemma alias_token_remains_for_T :
  Contains "type genT interface{}
" aliasDecl = true
  /\ rewrite "type genT interface{}
" "T" "T" "main" = "type genT T
"
  /\ Contains (rewrite "type genT interface{}
" "T" "T" "main") aliasToken = true.
Proof. vm_compute. done. Qed.

(** C1, amended: whatever the template, the output of [declareType]
    followed by [referenceType] and [repackage] holds no [genT] when the
    names put in cannot spell it: the capitalized type name and the concrete
    type name each begin with a byte other than [g], [e], [n], [T] and hold no
    [g] after it, and the package name holds neither [$] nor [genT]. *)
Theorem alias_substitution_complete (file kind typename pkg : bytes) :
  aliasSafe (GoStrings.Title kind) = true ->
  aliasSafe typename = true ->
  IndexByte pkg "$" = None ->
  Contains pkg aliasToken = false ->
  Contains (rewrite file kind typename pkg) aliasToken = false.
Proof.
  intros Hkind Htype Hplain Hpkg. unfold rewrite.
  apply repackage_clear; [done..|].
  apply referenceType_clear; [done|].
  by apply declareType_clear.
Qed.

Lemma alias_substitution_complete_witness :
  Contains (rewrite "package stack

type genT interface{}

type AnyT struct { elements []genT }
" "int" "Int" "numbers") aliasToken = false.
Proof.
  apply alias_substitution_complete; vm_compute; reflexivity.
Defined.

(** C3 fails on the code: the pattern of [repackage] is not tied to the
    beginning of a line, so a comment line that mentions a package is
    rewritten along with the package clause, where only the clause should
    change. *)
Lemma comment_line_rewritten :
  repackage "// in package docs
package stack
" "main" = "// in package main
package main
"
  /\ repackage "// in package docs
package stack
" "main" <> "// in package docs
package main
".
Proof. vm_compute. split; [reflexivity | discriminate]. Qed.

(** What [repackage] does in full, for a package name without [$]: it
    works line by line.  Every line closed by a newline that holds
    [package ] is replaced, from the first [package ] to its end, by
    [package ] and the destination name, wherever on the line that is;
    the lines without it, and a last line that no newline closes, are
    unchanged. *)
Theorem repackage_by_line (pkg : bytes) (lines : list bytes) (rest : bytes) :
  IndexByte pkg "$" = None ->
  Forall (fun l => NL ∉ l) lines ->
  NL ∉ rest ->
  repackage (text lines rest) pkg = text (reline pkg <$> lines) rest.
Proof.
  intros Hplain Hlines Hrest. induction Hlines as [|l lines Hl _ IH].
  - by apply repackage_no_newline.
  - cbn [text fmap list_fmap]. by rewrite repackage_line, IH.
Qed.

Lemma repackage_by_line_witness :
  repackage (text ["// Package stack is generic"; "package stack"; "";
                   "import x"] "package last") "main"
  = text ["// Package stack is generic"; "package main"; ""; "import x"]
      "package last".
Proof.
  apply (repackage_by_line "main"
           ["// Package stack is generic"; "package stack"; ""; "import x"]
           "package last").
  - reflexivity.
  - repeat (apply Forall_cons_2; [not_among|]). apply Forall_nil_2.
  - not_among.
Defined.

(** C4, as stated, fails: without the placeholder declaration the alias
    tokens are rewritten all the same. *)
Lemma alias_rewritten_without_declaration :
  Contains "var x genT
" aliasDecl = false
  /\ declareType "var x genT
" "int" = "var x genInt
".
Proof. vm_compute. done. Qed.

(** C4, amended: for a template without the placeholder declaration the
    first step of [declareType] changes nothing and raises nothing, and the
    second still replaces every [genT]: the result is the template cut at
    its alias tokens and joined again with the new alias name. *)
Theorem declareType_without_declaration (file kind : bytes) :
  Contains file aliasDecl = false ->
  Replace file aliasDecl (aliasBinding kind) 1 = file
  /\ declareType file kind = ReplaceAll file aliasToken (aliasName kind)
  /\ declareType file kind = Join (Split file aliasToken) (aliasName kind).
Proof.
  intros H. unfold Contains in H.
  destruct (Index file aliasDecl) eqn:E; [done|].
  assert (Replace file aliasDecl (aliasBinding kind) 1 = file) as Hstep
    by (by rewrite (Replace_once _ aliasDecl_nonempty), E).
  unfold declareType. rewrite Hstep. split_and!; [done..|].
  apply (ReplaceAll_Join_Split _ aliasToken_nonempty).
Qed.

Lemma declareType_without_declaration_witness :
  declareType "var x genT
" "int" = Join (Split "var x genT
" aliasToken) (aliasName "int").
Proof.
  apply (declareType_without_declaration "var x genT
" "int"). reflexivity.
Defined.

(** C10: a text in which the pattern has nothing to match, that is, which
    nowhere holds [package ] with a newline somewhere behind it, comes back
    from [repackage] unchanged; such is a text whose package clause is its
    last line and has no newline. *)
Theorem repackage_without_clause (file pkg : bytes) :
  (forall u q v, file <> u ++ "package " ++ q ++ NL :: v) ->
  repackage file pkg = file.
Proof. intros H. by apply repackage_none, doExecute_None. Qed.

Lemma repackage_without_clause_witness :
  repackage "// generic stack
package stack" "main" = "// generic stack
package stack".
Proof.
  apply repackage_without_clause. apply doExecute_None.
  vm_compute. reflexivity.
Defined.

End claims.

(** ** Runs of [main] *)

Section driver.

Import GoBytes.

Lemma names_eq (e : Env) :
  names (flags e) (sourceOf e) = (genericOf e, filenameOf e, typenameOf e).
Proof.
  unfold genericOf, filenameOf, typenameOf.
  by destruct (names (flags e) (sourceOf e)) as [[? ?] ?].
Qed.

Lemma main_import_failure (e : Env) (err : bytes) :
  ImportDir e = inr err ->
  main e initial
  = (Exit 1%Z,
     {| logPrefix := "==> golem: ";
        logged := [GoLog.line "==> golem: " err];
        written := [] |}).
Proof. intros H. unfold main, bind. simpl. by rewrite H. Qed.

Lemma main_read_failure (e : Env) (pkg : Package) (err : bytes) :
  ImportDir e = inl pkg ->
  ReadFile e (sourceOf e) = inr err ->
  main e initial
  = (Exit 1%Z,
     {| logPrefix := "==> golem: ";
        logged := [GoLog.line "==> golem: " err];
        written := [] |}).
Proof.
  intros Hi Hr. unfold main, bind, parseOpts.
  cbn [GoLog.SetPrefix initial logged written].
  rewrite Hi. cbn [ret].
  change (GoFilepath.Join [GOPATH e; "src"; generic (flags e)])
    with (sourceOf e).
  rewrite names_eq, Hr. done.
Qed.

(** A run that finds its package and its template reaches the end of
    [main] whether or not the file could be written. *)
Lemma main_completes (e : Env) (pkg : Package) (input : bytes) :
  ImportDir e = inl pkg ->
  ReadFile e (sourceOf e) = inl input ->
  main e initial
  = (Continue tt,
     {| logPrefix := "==> golem: ";
        logged := [GoLog.line "==> golem: " (genericOf e ++ "." ++ typenameOf e)];
        written :=
          if writable e (destinationOf e pkg)
          then [(destinationOf e pkg,
                 output (generic (flags e)) (Now e)
                   (rewrite input (kind (flags e)) (typenameOf e) (Name pkg)))]
          else [] |}).
Proof.
  intros Hi Hr. unfold main, bind, parseOpts.
  cbn [GoLog.SetPrefix initial logged written].
  rewrite Hi. cbn [ret].
  change (GoFilepath.Join [GOPATH e; "src"; generic (flags e)])
    with (sourceOf e).
  rewrite names_eq, Hr. unfold GoIoutil.WriteFile.
  change (GoFilepath.Join [PkgRoot pkg; filenameOf e])
    with (destinationOf e pkg).
  by destruct (writable e (destinationOf e pkg)).
Qed.

End driver.

Section naming.

Import GoBytes GoStrings GoFilepath.

Lemma Base_stack (dir : bytes) : Base (dir ++ "/stack.go") = "stack.go".
Proof.
  unfold Base. destruct (dir ++ "/stack.go") as [|c path] eqn:E.
  - by destruct dir.
  - rewrite <- E, reverse_app. reflexivity.
Qed.

Lemma Ext_stack (dir : bytes) : Ext (dir ++ "/stack.go") = ".go".
Proof. unfold Ext. rewrite reverse_app. reflexivity. Qed.

Lemma generic_stack (dir : bytes) :
  TrimSuffix (Base (dir ++ "/stack.go")) (Ext (dir ++ "/stack.go")) = "stack".
Proof. rewrite Base_stack, Ext_stack. reflexivity. Qed.

End naming.

Section claims_driver.

Import GoBytes GoStrings.

(** C5, as stated, fails in library mode: the file is named after the type
    as it was given, so for the type [Int] it is [Int.go], not [int.go]. *)
Lemma library_filename_keeps_case :
  names {| kind := "Int"; generic := "golem/stack/stack.go"; lib := true |}
    "/home/dev/go/src/golem/stack/stack.go"
  = ("stack", "Int.go", "Int")
  /\ (names {| kind := "Int"; generic := "golem/stack/stack.go"; lib := true |}
        "/home/dev/go/src/golem/stack/stack.go").1.2 <> "int.go".
Proof. vm_compute. split; [reflexivity | discriminate]. Qed.

(** C5, amended: for a template file [stack.go], whatever its directory,
    the generic is named [stack]; in library mode the file is named after
    the target type as given and the concrete type is its capitalized form
    ([Int.go] and [Int] for the type [Int]); in application mode the file
    is [stack.go] and the concrete type [Stack] (so with the type
    [Stack]). *)
Theorem names_by_mode (dir g k : bytes) :
  names {| kind := k; generic := g; lib := true |} (dir ++ "/stack.go")
  = ("stack", k ++ ".go", Title k)
  /\ names {| kind := "Int"; generic := g; lib := true |} (dir ++ "/stack.go")
     = ("stack", "Int.go", "Int")
  /\ names {| kind := k; generic := g; lib := false |} (dir ++ "/stack.go")
     = ("stack", "stack.go", "Stack")
  /\ names {| kind := "Stack"; generic := g; lib := false |} (dir ++ "/stack.go")
     = ("stack", "stack.go", "Stack").
Proof.
  unfold names. cbn [kind lib]. rewrite generic_stack. done.
Qed.

(** C2, as stated, fails: in library mode the program hands the
    capitalized type name to [referenceType], so for the type [int8] the
    placeholder [AnyT] becomes [Int8]; only the alias is bound to [int8] as
    given. *)
Lemma type_reference_capitalized :
  written (main (example true "int8" true) initial).2
  = [("/home/dev/go/pkg/int8.go",
      "// Code generated by `golem` package
// Source: github.com/fogfish/golem/stack/stack.go
// Time: 2019-11-10 18:30:00.123456789 +0000 UTC

package numbers

type genInt8 int8

type Int8 struct { elements []genInt8 }
")]
  /\ typenameOf (example true "int8" true) <> "int8".
Proof. vm_compute. split; [reflexivity | discriminate]. Qed.

(** C2, amended: in a run that finds its package and its template and can
    write its file, the text behind the header is the result of [repackage]
    on the text [a] that [declareType] made of the template, cut at every
    [AnyT] and joined again with the concrete type name, which is the
    capitalized target type in library mode and the capitalized name of the
    generic in application mode; [a] itself is the template, its first
    placeholder declaration replaced by the alias bound to the target type as
    given, cut at every [genT] and joined again with [gen] and the
    capitalized target type, in both modes. *)
Theorem type_reference_casing (e : Env) (pkg : Package) (input : bytes) :
  ImportDir e = inl pkg ->
  ReadFile e (sourceOf e) = inl input ->
  writable e (destinationOf e pkg) = true ->
  let opt := flags e in
  let a := declareType input (kind opt) in
  let pieces := Split a typeToken in
  typenameOf e = (if lib opt then Title (kind opt) else Title (genericOf e))
  /\ written (main e initial).2
     = [(destinationOf e pkg,
         output (generic opt) (Now e)
           (repackage (Join pieces (typenameOf e)) (Name pkg)))]
  /\ Join pieces typeToken = a
  /\ Forall (fun p => Contains p typeToken = false) pieces
  /\ a = Join (Split (Replace input aliasDecl (aliasBinding (kind opt)) 1)
                     aliasToken)
              ("gen" ++ Title (kind opt)).
Proof.
  intros Hi Hr Hw opt a pieces. split_and!.
  - unfold typenameOf, genericOf, names. fold opt. by destruct (lib opt).
  - rewrite (main_completes e pkg input Hi Hr), Hw. cbn [snd written].
    unfold rewrite, referenceType. fold opt a.
    by rewrite (ReplaceAll_Join_Split _ typeToken_nonempty).
  - apply (Join_Split _ typeToken_nonempty).
  - apply (Split_pieces _ typeToken_nonempty).
  - apply (ReplaceAll_Join_Split _ aliasToken_nonempty).
Qed.

Lemma type_reference_casing_witness :
  typenameOf (example false "int8" true) = "Stack"
  /\ written (main (example false "int8" true) initial).2
     = [("/home/dev/go/pkg/stack.go",
         output "github.com/fogfish/golem/stack/stack.go"
           "2019-11-10 18:30:00.123456789 +0000 UTC"
           "package numbers

type genInt8 int8

type Stack struct { elements []genInt8 }
")].
Proof.
  destruct (type_reference_casing (example false "int8" true)
              {| Name := "numbers"; PkgRoot := "/home/dev/go/pkg" |}
              stackTemplate eq_refl eq_refl eq_refl) as (Ht & Hw & _).
  split; [exact Ht | exact Hw].
Defined.

(** C6 fails on the code: [main] drops the error of [ioutil.WriteFile].
    A run that finds its package and its template but cannot write its
    file logs the line of a successful run, writes nothing and ends with
    status 0. *)
Theorem write_failure_ignored (e : Env) (pkg : Package) (input : bytes) :
  ImportDir e = inl pkg ->
  ReadFile e (sourceOf e) = inl input ->
  writable e (destinationOf e pkg) = false ->
  exitStatus (main e initial) = 0%Z
  /\ written (main e initial).2 = []
  /\ logged (main e initial).2
     = [GoLog.line "==> golem: " (genericOf e ++ "." ++ typenameOf e)].
Proof.
  intros Hi Hr Hw. rewrite (main_completes e pkg input Hi Hr), Hw. done.
Qed.

Lemma write_failure_ignored_witness :
  exitStatus (main (example true "int" false) initial) = 0%Z
  /\ written (main (example true "int" false) initial).2 = []
  /\ logged (main (example true "int" false) initial).2
     = ["==> golem: stack.Int
"].
Proof.
  apply (write_failure_ignored (example true "int" false)
           {| Name := "numbers"; PkgRoot := "/home/dev/go/pkg" |}
           stackTemplate); reflexivity.
Defined.

(** C7: the surroundings fixed, the exit status, the log and the file
    written are the same at any time, but for the time between [// Time: ]
    and the end of that line of the header. *)
Theorem output_fixed_but_timestamp (e : Env) :
  exists (status : Result unit) (log : list bytes)
         (files : bytes -> list (bytes * bytes)),
    (forall now,
       main (at_time e now) initial
       = (status,
          {| logPrefix := "==> golem: "; logged := log; written := files now |}))
    /\ ((forall now, files now = [])
        \/ exists path head body,
             forall now,
               files now = [(path, head ++ ("// Time: " ++ now ++ [NL]) ++ body)]).
Proof.
  destruct (ImportDir e) as [pkg|err] eqn:Hi.
  - destruct (ReadFile e (sourceOf e)) as [input|err] eqn:Hr.
    + exists (Continue tt),
        [GoLog.line "==> golem: " (genericOf e ++ "." ++ typenameOf e)].
      destruct (writable e (destinationOf e pkg)) eqn:Hw.
      * exists (fun now =>
                  [(destinationOf e pkg,
                    output (generic (flags e)) now
                      (rewrite input (kind (flags e)) (typenameOf e) (Name pkg)))]).
        split.
        -- intros now.
           rewrite (main_completes (at_time e now) pkg input Hi Hr).
           change (writable (at_time e now) (destinationOf (at_time e now) pkg))
             with (writable e (destinationOf e pkg)).
           rewrite Hw. reflexivity.
        -- right.
           exists (destinationOf e pkg),
             ("// Code generated by `golem` package" ++ [NL]
              ++ ("// Source: " ++ generic (flags e) ++ [NL])),
             (NL :: rewrite input (kind (flags e)) (typenameOf e) (Name pkg)).
           intros now. unfold output. by rewrite <- !app_assoc.
      * exists (fun _ => []). split; [|by left]. intros now.
        rewrite (main_completes (at_time e now) pkg input Hi Hr).
        change (writable (at_time e now) (destinationOf (at_time e now) pkg))
          with (writable e (destinationOf e pkg)).
        by rewrite Hw.
    + exists (Exit 1%Z), [GoLog.line "==> golem: " err], (fun _ => []).
      split; [|by left]. intros now.
      by rewrite (main_read_failure (at_time e now) pkg err Hi Hr).
  - exists (Exit 1%Z), [GoLog.line "==> golem: " err], (fun _ => []).
    split; [|by left]. intros now.
    by rewrite (main_import_failure (at_time e now) err Hi).
Qed.

Lemma Index_newline (l rest : bytes) :
  NL ∉ l -> Index (l ++ NL :: rest) [NL] = Some (length l).
Proof.
  induction l as [|x l IH]; intros Hl.
  - by apply Index_here.
  - apply not_elem_of_cons in Hl as [Hx Hl].
    cbn [app]. rewrite Index_cons. cbn [HasPrefix].
    apply not_eq_sym, byte_eqb_false in Hx. rewrite Hx. cbn [andb].
    by rewrite (IH Hl).
Qed.

Lemma Split_line (l rest : bytes) :
  NL ∉ l -> Split (l ++ NL :: rest) [NL] = l :: Split rest [NL].
Proof.
  intros Hl. rewrite (Split_unfold [NL]) by done.
  rewrite (Index_newline l rest Hl), take_app_length.
  change (l ++ NL :: rest) with (l ++ [NL] ++ rest).
  rewrite app_assoc, drop_app_length'; [done|]. rewrite length_app. done.
Qed.

Lemma Split_text (lines : list bytes) (rest : bytes) :
  Forall (fun l => NL ∉ l) lines ->
  Split (text lines rest) [NL] = lines ++ Split rest [NL].
Proof.
  induction 1 as [|l lines Hl _ IH]; [done|].
  cbn [text app]. by rewrite (Split_line l _ Hl), IH.
Qed.

(** C8, as stated, fails: with a newline in the [-generic] argument the
    second comment of the header is broken over two lines; the third
    line of the file is no comment and the time comes fourth. *)
Lemma header_line_broken :
  exists content,
    exitStatus (main newlineInPath initial) = 0%Z
    /\ written (main newlineInPath initial).2
       = [("/home/dev/go/pkg/int.go", content)]
    /\ content = "// Code generated by `golem` package
// Source: x
/../github.com/fogfish/golem/stack/stack.go
// Time: 2019-11-10 18:30:00.123456789 +0000 UTC

package numbers

type genInt int

type Int struct { elements []genInt }
"
    /\ take 4 (Split content [NL])
       = ["// Code generated by `golem` package";
          "// Source: x";
          "/../github.com/fogfish/golem/stack/stack.go";
          "// Time: 2019-11-10 18:30:00.123456789 +0000 UTC"]
    /\ HasPrefix "/../github.com/fogfish/golem/stack/stack.go" "//" = false.
Proof.
  eexists. split; [reflexivity|]. split; [reflexivity|]. vm_compute. done.
Qed.

(** C8, amended: when neither the [-generic] argument nor the formatted
    time holds a newline, the file written begins with exactly three
    comment lines, the marker of generated code, the path of the template
    as given on the command line and the time, then an empty line, and
    goes on with the lines of the rewritten template. *)
Theorem generated_file_header (e : Env) (pkg : Package) (input : bytes) :
  ImportDir e = inl pkg ->
  ReadFile e (sourceOf e) = inl input ->
  writable e (destinationOf e pkg) = true ->
  IndexByte (generic (flags e)) NL = None ->
  IndexByte (Now e) NL = None ->
  written (main e initial).2
  = [(destinationOf e pkg,
      text ["// Code generated by `golem` package";
            "// Source: " ++ generic (flags e);
            "// Time: " ++ Now e;
            []]
        (rewrite input (kind (flags e)) (typenameOf e) (Name pkg)))]
  /\ Split
       (text (header e ++ [[]])
          (rewrite input (kind (flags e)) (typenameOf e) (Name pkg))) [NL]
     = header e
       ++ [] :: Split (rewrite input (kind (flags e)) (typenameOf e) (Name pkg))
                  [NL]
  /\ Forall (fun l => HasPrefix l "//" = true /\ NL ∉ l) (header e).
Proof.
  intros Hi Hr Hw Hg%IndexByte_None Hn%IndexByte_None.
  assert (Forall (fun l => HasPrefix l "//" = true /\ NL ∉ l) (header e))
    as Hh.
  { unfold header. repeat apply Forall_cons_2; [| | |apply Forall_nil_2].
    - split; [done | not_among].
    - split; [done|]. intros [H|H]%elem_of_app; [|done]. revert H. not_among.
    - split; [done|]. intros [H|H]%elem_of_app; [|done]. revert H. not_among.
  }
  split; [|split; [|done]].
  - rewrite (main_completes e pkg input Hi Hr), Hw.
    cbn [snd written text]. unfold output. by rewrite <- !app_assoc.
  - rewrite Split_text.
    + by rewrite <- app_assoc.
    + apply Forall_app. split.
      * eapply Forall_impl; [exact Hh|]. by intros l [_ Hl].
      * apply Forall_cons_2; [apply not_elem_of_nil | apply Forall_nil_2].
Qed.

Lemma generated_file_header_witness :
  written (main (example true "int" true) initial).2
  = [("/home/dev/go/pkg/int.go",
      "// Code generated by `golem` package
// Source: github.com/fogfish/golem/stack/stack.go
// Time: 2019-11-10 18:30:00.123456789 +0000 UTC

package numbers

type genInt int

type Int struct { elements []genInt }
")]
  /\ Split "// Code generated by `golem` package
// Source: github.com/fogfish/golem/stack/stack.go
// Time: 2019-11-10 18:30:00.123456789 +0000 UTC

package numbers

type genInt int

type Int struct { elements []genInt }
" [NL]
     = ["// Code generated by `golem` package";
        "// Source: github.com/fogfish/golem/stack/stack.go";
        "// Time: 2019-11-10 18:30:00.123456789 +0000 UTC";
        [];
        "package numbers"; []; "type genInt int"; [];
        "type Int struct { elements []genInt }"; []]
  /\ Forall (fun l => HasPrefix l "//" = true /\ NL ∉ l)
       (header (example true "int" true)).
Proof.
  apply (generated_file_header (example true "int" true)
           {| Name := "numbers"; PkgRoot := "/home/dev/go/pkg" |}
           stackTemplate); reflexivity.
Defined.

(** In a template that holds the placeholder declaration, first at [j],
    [declareType] replaces that one instance (what follows it is kept as it
    is, further instances included) by the alias bound to the target type,
    and then replaces [genT] everywhere in the text so obtained.  When no
    [genT] begins inside the new declaration, it is in the result as it was
    written, between the rewritten texts before and after it. *)
Lemma declaration_kept_when_clear (file kind : bytes) (j : nat) :
  Index file aliasDecl = Some j ->
  let pre := take j file in
  let post := drop (j + length aliasDecl) file in
  file = pre ++ aliasDecl ++ post
  /\ Contains (pre ++ "type genT interface{") aliasDecl = false
  /\ Replace file aliasDecl (aliasBinding kind) 1
     = pre ++ aliasBinding kind ++ post
  /\ declareType file kind
     = ReplaceAll (pre ++ aliasBinding kind ++ post) aliasToken (aliasName kind)
  /\ ((forall i, i < length (aliasBinding kind) ->
         HasPrefix (drop i (aliasBinding kind ++ post)) aliasToken = false) ->
      declareType file kind
      = ReplaceAll pre aliasToken (aliasName kind)
        ++ aliasBinding kind
        ++ ReplaceAll post aliasToken (aliasName kind)).
Proof.
  intros E pre post.
  assert (Replace file aliasDecl (aliasBinding kind) 1
          = pre ++ aliasBinding kind ++ post) as Hstep
    by (by rewrite (Replace_once _ aliasDecl_nonempty), E).
  split_and!.
  - by apply Index_Some_split.
  - by apply (Index_Some_front file "type genT interface{" "}").
  - done.
  - unfold declareType. by rewrite Hstep.
  - intros Hnew. unfold declareType. rewrite Hstep.
    rewrite (ReplaceAll_app _ aliasToken_nonempty).
    + f_equal. rewrite (ReplaceAll_app _ aliasToken_nonempty).
      * f_equal. apply (ReplaceAll_none _ aliasToken_nonempty).
        destruct (Index (aliasBinding kind) aliasToken) as [i|] eqn:Ei; [|done].
        pose proof (Index_Some_length _ _ _ Ei) as Hl.
        change (length aliasToken) with 4 in Hl.
        apply Index_Some_prefix in Ei.
        apply (HasPrefix_app_r _ _ post) in Ei.
        rewrite <- drop_app_le in Ei by lia.
        rewrite Hnew in Ei by lia. done.
      * intros i Hi Hp. by rewrite Hnew in Hp.
    + intros i Hi Hp. unfold aliasBinding in Hp.
      rewrite drop_app_le in Hp by lia.
      change (("type gen" ++ Title kind ++ " " ++ kind) ++ post)
        with ("t"%byte :: ("ype gen" ++ Title kind ++ " " ++ kind) ++ post) in Hp.
      rewrite HasPrefix_app_sep in Hp by not_among.
      apply HasPrefix_length in Hp. rewrite length_drop in Hp.
      simpl in Hp. change (length aliasToken) with 4. lia.
Qed.

Example declaration_kept_for_int :
  declareType stackTemplate "int"
  = ReplaceAll "package stack

" aliasToken "genInt"
    ++ "type genInt int"
    ++ ReplaceAll "

type AnyT struct { elements []genT }
" aliasToken "genInt".
Proof.
  destruct (declaration_kept_when_clear stackTemplate "int" 15 eq_refl)
    as (_ & _ & _ & _ & H).
  apply H. intros i Hi.
  do 15 (destruct i as [|i]; [reflexivity|]).
  exfalso. revert Hi. clear. simpl. lia.
Qed.

(** C9 fails on the code for a target type whose capitalized name begins
    with [T]: the first step writes the declaration of the alias [genTree],
    which begins with the token [genT], and the second step rewrites it
    again, so that the alias declared is [genTreeree] while the references
    to it become [genTree]. *)
Theorem declaration_rewritten_twice :
  Replace "type genT interface{}
var top genT
" aliasDecl (aliasBinding "Tree") 1 = "type genTree Tree
var top genT
"
  /\ declareType "type genT interface{}
var top genT
" "Tree" = "type genTreeree Tree
var top genTree
".
Proof. vm_compute. done. Qed.

End claims_driver.

(** * Further properties of the code *)

(** ** Texts cut by a byte foreign to the token *)

Section cuts.

Import GoBytes.

Lemma ReplaceAll_cons_other (x a : byte) (sep new s : bytes) :
  x <> a ->
  ReplaceAll (x :: s) (a :: sep) new = x :: ReplaceAll s (a :: sep) new.
Proof.
  intros Hx.
  assert (a :: sep <> []) as Hne by done.
  rewrite (ReplaceAll_unfold _ Hne new (x :: s)).
  rewrite (ReplaceAll_unfold _ Hne new s), Index_cons.
  assert (HasPrefix (x :: s) (a :: sep) = false) as ->.
  { simpl. apply byte_eqb_false in Hx. by rewrite Hx. }
  by destruct (Index s (a :: sep)).
Qed.

(** Text that lacks the first byte of the token is copied. *)
Lemma ReplaceAll_skip (a : byte) (sep new u v : bytes) :
  a ∉ u ->
  ReplaceAll (u ++ v) (a :: sep) new = u ++ ReplaceAll v (a :: sep) new.
Proof.
  induction u as [|x u IH]; intros Hu; [done|].
  apply not_elem_of_cons in Hu as [Hx Hu].
  change ((x :: u) ++ v) with (x :: (u ++ v)).
  rewrite ReplaceAll_cons_other by congruence. by rewrite IH.
Qed.

Lemma ReplaceAll_clean (a : byte) (sep new u : bytes) :
  a ∉ u -> ReplaceAll u (a :: sep) new = u.
Proof.
  intros Hu. rewrite <- (app_nil_r u) at 1.
  rewrite ReplaceAll_skip by done.
  rewrite (ReplaceAll_none (a :: sep)); [by rewrite app_nil_r | done | done].
Qed.

(** A byte that is not in the token cuts the text in two parts that are
    rewritten independently. *)
Lemma ReplaceAll_cut (c : byte) (sep new u v : bytes) :
  sep <> [] ->
  c ∉ sep ->
  ReplaceAll (u ++ c :: v) sep new
  = ReplaceAll u sep new ++ c :: ReplaceAll v sep new.
Proof.
  intros Hne Hc.
  rewrite (ReplaceAll_app sep Hne).
  - f_equal. destruct sep as [|a sep]; [done|].
    apply not_elem_of_cons in Hc as [Hc _].
    by apply ReplaceAll_cons_other.
  - intros i Hi. rewrite drop_app_le by lia.
    rewrite HasPrefix_app_sep by done.
    intros Hp%HasPrefix_length. rewrite length_drop in Hp. lia.
Qed.

End cuts.


(** ** The type token *)

Section type_token.

Import GoBytes.

(** X1: [referenceType] works line by line: the newline is not part of
    [AnyT], so each line of the text, and its unclosed last line, is
    rewritten as if it stood alone. *)
Theorem referenceType_by_line (lines : list bytes) (rest kind : bytes) :
  referenceType (text lines rest) kind
  = text ((fun l => referenceType l kind) <$> lines) (referenceType rest kind).
Proof.
  unfold referenceType. induction lines as [|l lines IH]; [done|].
  cbn [text fmap list_fmap].
  rewrite (ReplaceAll_cut NL typeToken) by (done || not_among).
  by rewrite IH.
Qed.

Lemma typeSafe_inv (name : bytes) :
  typeSafe name = true ->
  exists c rest, name = c :: rest /\ (c ∉ typeToken) /\ (("A"%byte) ∉ rest).
Proof.
  destruct name as [|c rest]; [done|]. cbn [typeSafe].
  destruct (IndexByte typeToken c) eqn:Ec; [done|].
  destruct (IndexByte rest "A") eqn:Eg; [done|]. intros _.
  exists c, rest. by rewrite <- !IndexByte_None.
Qed.

Lemma referenceType_clear_of_type (file typename : bytes) :
  typeSafe typename = true ->
  Contains (referenceType file typename) typeToken = false.
Proof.
  intros (c & rest & -> & Hc & Ha)%typeSafe_inv. unfold referenceType.
  induction file as [s E|s j E IH] using (walk_ind _ typeToken_nonempty);
    rewrite (ReplaceAll_unfold _ typeToken_nonempty), E.
  - unfold Contains. by rewrite E.
  - change ((c :: rest) ++ ReplaceAll (drop (j + length typeToken) s)
                             typeToken (c :: rest))
      with (c :: (rest ++ ReplaceAll (drop (j + length typeToken) s)
                            typeToken (c :: rest))).
    apply Contains_sep; [done | by apply (Index_Some_before _ typeToken_nonempty) |].
    by apply (Contains_skip rest _ "nyT" "A").
Qed.

(** The clause [repackage] puts in brings no instance of a pattern that
    the package name does not hold, when none of [p], the space and the
    newline is in the pattern and [ackage] does not hold it. *)
Lemma repackage_keeps_out (pat file pkg : bytes) :
  ("p"%byte) ∉ pat -> (" "%byte) ∉ pat -> NL ∉ pat ->
  Contains "ackage" pat = false ->
  IndexByte pkg "$" = None ->
  Contains pkg pat = false ->
  Contains file pat = false ->
  Contains (repackage file pkg) pat = false.
Proof.
  intros Hp Hsp Hnl Hlit Hplain Hpkg.
  induction file as [s E|s a0 a1 caps E IH] using matches_ind;
    rewrite repackage_unfold, E; [done|].
  intros Hs. rewrite expand_plain by by apply clauseFor_plain.
  pose proof (search_bounds _ _ _ _ _ E) as (_ & Ha & Hb). simpl in Hb.
  rewrite <- (take_drop a1 s) in Hs.
  pose proof (Contains_false_app_r _ _ _ Hs) as Hrest.
  apply Contains_false_app_l in Hs.
  rewrite <- (take_drop a0 (take a1 s)), take_take in Hs.
  replace (a0 `min` a1) with a0 in Hs by lia.
  apply Contains_false_app_l in Hs.
  assert (take a0 s ++ clauseFor pkg ++ repackage (drop a1 s) pkg
          = take a0 s ++ "p"%byte
              :: ("ackage" ++ " "%byte
                    :: (pkg ++ NL :: repackage (drop a1 s) pkg))) as ->.
  { unfold clauseFor. by rewrite <- !app_assoc. }
  repeat (apply Contains_sep; [done | done |]). by apply IH.
Qed.

(** X2: when the concrete type name cannot help to spell [AnyT] (it
    begins with a byte other than [A], [n], [y], [T] and holds no [A]
    after it), [referenceType] leaves no [AnyT] in any text, and neither
    does the whole rewrite for a package name that holds neither [$] nor
    [AnyT]. *)
Theorem type_substitution_complete (file kind typename pkg : bytes) :
  typeSafe typename = true ->
  IndexByte pkg "$" = None ->
  Contains pkg typeToken = false ->
  Contains (referenceType file typename) typeToken = false
  /\ Contains (rewrite file kind typename pkg) typeToken = false.
Proof.
  intros Htype Hplain Hpkg. split.
  - by apply referenceType_clear_of_type.
  - unfold rewrite.
    apply repackage_keeps_out; [not_among | not_among | not_among | done..|].
    by apply referenceType_clear_of_type.
Qed.

Lemma type_substitution_complete_witness :
  Contains (referenceType stackTemplate "Stack") typeToken = false
  /\ Contains (rewrite stackTemplate "int" "Stack" "numbers") typeToken = false.
Proof.
  apply type_substitution_complete; reflexivity.
Defined.

(** X3: in a template that holds the placeholder declaration, first at
    [j], and for a target type that holds no [g] and whose capitalized
    name cannot help to spell [genT], the result of [declareType] is the
    rewritten text before the declaration, the alias bound to the target
    type as given, and the rewritten text behind it; it holds no [genT]. *)
Theorem declaration_bound (file kind : bytes) (j : nat) :
  Index file aliasDecl = Some j ->
  aliasSafe (GoStrings.Title kind) = true ->
  IndexByte kind "g" = None ->
  declareType file kind
  = ReplaceAll (take j file) aliasToken (aliasName kind)
    ++ ("type gen" ++ GoStrings.Title kind ++ " " ++ kind)
    ++ ReplaceAll (drop (j + length aliasDecl) file) aliasToken (aliasName kind)
  /\ Contains (declareType file kind) aliasToken = false.
Proof.
  intros E Hsafe Hkind. split; [|by apply declareType_clear].
  unfold declareType.
  rewrite (Replace_once _ aliasDecl_nonempty), E. unfold aliasBinding.
  set (new := aliasName kind).
  set (pre := take j file). set (post := drop (j + length aliasDecl) file).
  apply aliasSafe_inv in Hsafe as (c & K & -> & Hc & HK).
  apply IndexByte_None in Hkind.
  assert (pre ++ ("type gen" ++ (c :: K) ++ " " ++ kind) ++ post
          = pre ++ "t"%byte
              :: ("ype" ++ " "%byte
                   :: ("gen" ++ c :: (K ++ " "%byte :: (kind ++ post))))) as ->.
  { by rewrite <- !app_assoc. }
  rewrite (ReplaceAll_cut "t" aliasToken) by (done || not_among).
  rewrite (ReplaceAll_cut " " aliasToken) by (done || not_among).
  rewrite (ReplaceAll_cut c aliasToken) by done.
  unfold aliasToken.
  rewrite (ReplaceAll_skip "g" "enT" new K) by done.
  rewrite (ReplaceAll_cons_other " " "g") by done.
  rewrite (ReplaceAll_skip "g" "enT" new kind) by done.
  rewrite (ReplaceAll_clean "g" "enT" new "ype") by not_among.
  assert (ReplaceAll "gen" "genT" new = "gen") as -> by reflexivity.
  by rewrite <- !app_assoc.
Qed.

Lemma declaration_bound_witness :
  declareType stackTemplate "int8"
  = ReplaceAll "package stack

" aliasToken "genInt8"
    ++ "type genInt8 int8"
    ++ ReplaceAll "

type AnyT struct { elements []genT }
" aliasToken "genInt8"
  /\ Contains (declareType stackTemplate "int8") aliasToken = false.
Proof.
  apply (declaration_bound stackTemplate "int8" 15); reflexivity.
Defined.

End type_token.

(** ** Rewriting the package clause again *)

Section again.

Import GoBytes GoRegexp.

(** Every text is made of lines. *)
Lemma text_exists (s : bytes) :
  exists lines rest,
    s = text lines rest /\ Forall (fun l => NL ∉ l) lines /\ NL ∉ rest.
Proof.
  induction s as [|c s (lines & rest & -> & Hl & Hr)].
  - exists [], []. split_and!; [done | apply Forall_nil_2 | apply not_elem_of_nil].
  - destruct (decide (c = NL)) as [->|Hc].
    + exists ([] :: lines), rest. split_and!; [done | | done].
      apply Forall_cons_2; [apply not_elem_of_nil | done].
    + destruct Hl as [|l lines Hl Hls].
      * exists [], (c :: rest). split_and!; [done | apply Forall_nil_2 |].
        apply not_elem_of_cons. split; [congruence | done].
      * exists ((c :: l) :: lines), rest. split_and!; [done | | done].
        apply Forall_cons_2; [|done].
        apply not_elem_of_cons. split; [congruence | done].
Qed.

Lemma reline_no_newline (pkg l : bytes) :
  NL ∉ pkg -> NL ∉ l -> NL ∉ reline pkg l.
Proof.
  intros Hp Hl. unfold reline.
  destruct (Index l "package ") as [i|]; [|done].
  rewrite !not_elem_of_app. split_and!; [|not_among|done].
  intros Hin. apply Hl. rewrite <- (take_drop i l).
  apply elem_of_app. by left.
Qed.

(** The clause put in is found again where the old one was. *)
Lemma Index_reline (pkg l : bytes) (i : nat) :
  Index l "package " = Some i ->
  Index (take i l ++ "package " ++ pkg) "package " = Some i.
Proof.
  intros E. pose proof (Index_Some_length _ _ _ E) as Hl. simpl in Hl.
  pose proof (Index_Some_front l "package" " " i E) as Hfront.
  rewrite (Index_app (take i l)) by
    first [ done
          | intros k Hk; rewrite length_take in Hk;
            change ("package " ++ pkg) with ("package" ++ " "%byte :: pkg);
            rewrite app_assoc, drop_app_le
              by (rewrite length_app, length_take; lia);
            rewrite HasPrefix_app_short
              by (rewrite length_drop, length_app, length_take; simpl; lia);
            by apply Contains_false_drop ].
  f_equal. rewrite length_take. lia.
Qed.

Lemma reline_reline (p1 p2 l : bytes) :
  reline p2 (reline p1 l) = reline p2 l.
Proof.
  unfold reline at 2 3.
  destruct (Index l "package ") as [i|] eqn:E.
  - unfold reline. rewrite (Index_reline p1 l i E).
    pose proof (Index_Some_length _ _ _ E) as Hl.
    by rewrite take_app_length' by (rewrite length_take; lia).
  - unfold reline. by rewrite E.
Qed.

Lemma repackage_text (pkg : bytes) (lines : list bytes) (rest : bytes) :
  IndexByte pkg "$" = None ->
  Forall (fun l => NL ∉ l) lines ->
  NL ∉ rest ->
  repackage (text lines rest) pkg = text (reline pkg <$> lines) rest.
Proof.
  intros Hplain Hlines Hrest. induction Hlines as [|l lines Hl _ IH];
    cbn [text fmap list_fmap].
  - by apply repackage_no_newline.
  - by rewrite repackage_line, IH.
Qed.

(** X4: rewriting the package clause twice is rewriting it for the last
    name: when the names hold no [$] and the first one no newline,
    [repackage] to [p1] and then to [p2] gives what [repackage] to [p2]
    gives; in particular a second [repackage] to the same name changes
    nothing. *)
Theorem repackage_last_wins (file p1 p2 : bytes) :
  IndexByte p1 "$" = None ->
  IndexByte p1 NL = None ->
  IndexByte p2 "$" = None ->
  repackage (repackage file p1) p2 = repackage file p2
  /\ repackage (repackage file p1) p1 = repackage file p1.
Proof.
  intros H1 Hnl%IndexByte_None H2.
  destruct (text_exists file) as (lines & rest & -> & Hl & Hr).
  assert (Forall (fun l => NL ∉ l) (reline p1 <$> lines)) as Hl'.
  { apply Forall_fmap. eapply Forall_impl; [exact Hl|].
    intros l Hnl'. by apply reline_no_newline. }
  rewrite (repackage_text p1), !repackage_text by done.
  rewrite <- !list_fmap_compose. split; f_equal;
    apply list_fmap_ext; intros _ l _; apply reline_reline.
Qed.

Lemma repackage_last_wins_witness :
  repackage (repackage stackTemplate "numbers") "main"
  = repackage stackTemplate "main"
  /\ repackage (repackage stackTemplate "numbers") "numbers"
     = repackage stackTemplate "numbers".
Proof.
  apply repackage_last_wins; reflexivity.
Defined.

Lemma search_clause (s : bytes) (off a0 a1 : nat) (caps : captures) :
  search packageClause s off = Some (a0, a1, caps) ->
  off <= a0
  /\ caps = [(0, (a0, a1)); (1, (a0 + 8, a1 - 1))]
  /\ clauseAt (drop (a0 - off) s) = Some (a1 - a0 - 9).
Proof.
  revert off. induction s as [|c s IH]; intros off; [done|].
  rewrite search_cons. destruct (clauseAt (c :: s)) as [j|] eqn:E.
  - intros [= <- <- <-]. rewrite Nat.sub_diag. split_and!; [lia| |].
    + repeat first [lia | f_equal].
    + simpl drop. rewrite E. f_equal. lia.
  - intros (Hle & -> & Hc)%IH. split_and!; [lia | done |].
    replace (a0 - off) with (S (a0 - S off)) by lia. done.
Qed.

(** X5: a [$] in the package name is not text: [$1] stands for the name
    the clause had, so that [repackage] to [$1] gives every text back
    unchanged. *)
Theorem repackage_group_reference (file : bytes) :
  repackage file "$1" = file.
Proof.
  induction file as [s E|s a0 a1 caps E IH] using matches_ind;
    rewrite repackage_unfold, E; [done|].
  rewrite IH. unfold doExecute in E.
  pose proof (search_bounds _ _ _ _ _ E) as (_ & Ha & Hb). simpl in Hb.
  apply search_clause in E as (_ & -> & Hc).
  rewrite Nat.sub_0_r in Hc. unfold clauseAt in Hc.
  destruct (HasPrefix (drop a0 s) "package ") eqn:Hp; [|done].
  apply HasPrefix_drop in Hp. apply IndexByte_Some in Hc as [Hq _].
  change (length "package ") with 8 in Hp.
  assert (expand (length (clauseFor "$1")) (clauseFor "$1") s
            [(0, (a0, a1)); (1, (a0 + 8, a1 - 1))]
          = "package " ++ take (a1 - 1 - (a0 + 8)) (drop (a0 + 8) s) ++ [NL])
    as -> by reflexivity.
  rewrite drop_drop in Hp, Hq.
  replace (a1 - 1 - (a0 + 8)) with (a1 - a0 - 9) by lia.
  rewrite drop_drop in Hq.
  replace (a0 + 8 + S (a1 - a0 - 9)) with a1 in Hq by lia.
  transitivity (take a0 s ++ drop a0 s); [|apply take_drop].
  f_equal. rewrite Hp, <- app_assoc. f_equal.
  etrans; [|symmetry; exact Hq]. by rewrite <- app_assoc.
Qed.

End again.

(** ** The names [main] derives from the path of the template *)

Section derived.

Import GoBytes GoStrings GoFilepath.

Lemma separator_other (c : byte) : c <> "/"%byte -> IsPathSeparator c = false.
Proof. intros H. unfold IsPathSeparator. by apply byte_eqb_false. Qed.

Lemma dropSeparators_other (c : byte) (r : bytes) :
  c <> "/"%byte -> dropSeparators (c :: r) = c :: r.
Proof. intros H. simpl. by rewrite separator_other. Qed.

Lemma untilSeparator_app (u v : bytes) :
  ("/"%byte) ∉ u -> untilSeparator (u ++ "/"%byte :: v) = u.
Proof.
  induction u as [|x u IH]; intros Hu; [done|].
  apply not_elem_of_cons in Hu as [Hx Hu]. simpl.
  rewrite separator_other by congruence. by rewrite IH.
Qed.

Lemma Ext_loop_dot (u rest acc : bytes) :
  ("/"%byte) ∉ u -> ("."%byte) ∉ u ->
  Ext_loop (u ++ "."%byte :: rest) acc = "."%byte :: reverse u ++ acc.
Proof.
  revert acc. induction u as [|x u IH]; intros acc Hs Hd; [done|].
  apply not_elem_of_cons in Hs as [Hxs Hs].
  apply not_elem_of_cons in Hd as [Hxd Hd]. simpl.
  rewrite separator_other by congruence.
  assert (Byte.eqb x "." = false) as -> by (apply byte_eqb_false; congruence).
  rewrite IH by done. by rewrite reverse_cons, <- app_assoc.
Qed.

Lemma Ext_loop_none (u rest acc : bytes) :
  ("."%byte) ∉ u -> Ext_loop (u ++ "/"%byte :: rest) acc = [].
Proof.
  revert acc. induction u as [|x u IH]; intros acc Hd; [done|].
  apply not_elem_of_cons in Hd as [Hxd Hd]. simpl.
  destruct (IsPathSeparator x); [done|].
  assert (Byte.eqb x "." = false) as -> by (apply byte_eqb_false; congruence).
  by apply IH.
Qed.

Lemma TrimSuffix_app (s suffix : bytes) :
  TrimSuffix (s ++ suffix) suffix = s.
Proof.
  unfold TrimSuffix, HasSuffix. rewrite reverse_app, HasPrefix_app.
  apply take_app_length'. rewrite length_app. lia.
Qed.

Lemma TrimSuffix_nil (s : bytes) : TrimSuffix s [] = s.
Proof.
  pose proof (TrimSuffix_app s []) as H. by rewrite app_nil_r in H.
Qed.

(** The last element of a path that ends in a name. *)
Lemma Base_name (dir name : bytes) :
  name <> [] -> ("/"%byte) ∉ name ->
  Base (dir ++ "/"%byte :: name) = name.
Proof.
  intros Hne Hs. unfold Base.
  destruct (dir ++ "/"%byte :: name) as [|c path] eqn:E;
    [by destruct dir|].
  rewrite <- E. clear E.
  change ("/"%byte :: name) with (["/"%byte] ++ name).
  rewrite !reverse_app. change (reverse ["/"%byte]) with ["/"%byte].
  rewrite <- app_assoc. simpl app.
  destruct (reverse name) as [|x r] eqn:Er.
  { apply (f_equal reverse) in Er. rewrite reverse_involutive in Er. done. }
  assert (("/"%byte) ∉ x :: r) as Hxr by (rewrite <- Er; by rewrite elem_of_reverse).
  change ((x :: r) ++ "/"%byte :: reverse dir)
    with (x :: (r ++ "/"%byte :: reverse dir)).
  rewrite dropSeparators_other
    by (apply not_elem_of_cons in Hxr as [? _]; congruence).
  change (x :: (r ++ "/"%byte :: reverse dir))
    with ((x :: r) ++ "/"%byte :: reverse dir).
  rewrite untilSeparator_app by done.
  rewrite <- Er, reverse_involutive. by destruct name.
Qed.

(** X6: the generic is named after the file of the template, without
    its last extension and whatever the directory: for a path that ends
    in [/stem.ext], [ext] holding no dot, [main] takes [stem] for the
    generic; the file to write is [stem.go] and the concrete type the
    capitalized [stem] in application mode, and they come from the target
    type in library mode. *)
Theorem names_of_template (opt : opts) (dir stem ext : bytes) :
  IndexByte stem "/" = None ->
  IndexByte ext "/" = None ->
  IndexByte ext "." = None ->
  names opt (dir ++ "/" ++ stem ++ "." ++ ext)
  = (stem,
     if lib opt then kind opt ++ ".go" else stem ++ ".go",
     if lib opt then Title (kind opt) else Title stem).
Proof.
  intros Hstem%IndexByte_None Hext%IndexByte_None Hdot%IndexByte_None.
  assert (Base (dir ++ "/" ++ stem ++ "." ++ ext) = stem ++ "." ++ ext) as HB.
  { apply (Base_name dir (stem ++ "."%byte :: ext)); [by destruct stem|].
    rewrite not_elem_of_app, not_elem_of_cons. split_and!; done. }
  assert (Ext (dir ++ "/" ++ stem ++ "." ++ ext) = "." ++ ext) as HE.
  { unfold Ext.
    assert (dir ++ "/" ++ stem ++ "." ++ ext
            = (dir ++ "/" ++ stem) ++ ["."%byte] ++ ext) as ->
      by (by rewrite <- !app_assoc).
    rewrite (reverse_app (dir ++ "/" ++ stem)), (reverse_app ["."%byte] ext).
    rewrite <- app_assoc.
    etrans; [apply (Ext_loop_dot (reverse ext) (reverse (dir ++ "/" ++ stem)) []);
             by rewrite elem_of_reverse|].
    by rewrite reverse_involutive, app_nil_r. }
  unfold names. rewrite HB, HE, TrimSuffix_app. by destruct (lib opt).
Qed.

Lemma names_of_template_witness :
  names {| kind := "int"; generic := "queue/queue.v2.go"; lib := false |}
    ("/home/dev/go/src/queue" ++ "/" ++ "queue.v2" ++ "." ++ "go")
  = ("queue.v2", "queue.v2.go", "Queue.V2").
Proof.
  apply (names_of_template
           {| kind := "int"; generic := "queue/queue.v2.go"; lib := false |}
           "/home/dev/go/src/queue" "queue.v2" "go"); reflexivity.
Defined.

(** X7: a template whose file has no extension gives its whole name to
    the generic, and [.go] is added for the file to write. *)
Theorem names_without_extension (opt : opts) (dir name : bytes) :
  name <> [] ->
  IndexByte name "/" = None ->
  IndexByte name "." = None ->
  names opt (dir ++ "/" ++ name)
  = (name,
     if lib opt then kind opt ++ ".go" else name ++ ".go",
     if lib opt then Title (kind opt) else Title name).
Proof.
  intros Hne Hs%IndexByte_None Hd%IndexByte_None.
  change (dir ++ "/" ++ name) with (dir ++ "/"%byte :: name).
  assert (Ext (dir ++ "/"%byte :: name) = []) as HE.
  { unfold Ext. change ("/"%byte :: name) with (["/"%byte] ++ name).
    rewrite app_assoc, reverse_app, reverse_snoc.
    apply Ext_loop_none. by rewrite elem_of_reverse. }
  unfold names. rewrite HE.
  rewrite (Base_name dir name) by done.
  rewrite TrimSuffix_nil. by destruct (lib opt).
Qed.

Lemma names_without_extension_witness :
  names {| kind := "int"; generic := "queue/template"; lib := false |}
    ("/home/dev/go/src/queue" ++ "/" ++ "template")
  = ("template", "template.go", "Template").
Proof.
  apply (names_without_extension
           {| kind := "int"; generic := "queue/template"; lib := false |}
           "/home/dev/go/src/queue" "template"); [discriminate | reflexivity..].
Defined.

Lemma ToTitle_upper (r : byte) :
  (Byte.to_N r <=? 127)%N = true -> between "a" "z" (ToTitle r) = false.
Proof. intros H. destruct r; vm_compute in H |- *; congruence. Qed.

(** X8: when the name the type is called after (the target type in
    library mode, the name of the generic otherwise) begins with an ASCII
    byte, the name of the concrete type begins with the title case of that
    byte, which is no lower-case letter: the type is exported from the
    package it is generated into. *)
Theorem typename_exported (opt : opts) (source : bytes) (r : byte)
    (s : bytes) :
  (if lib opt then kind opt else (names opt source).1.1) = r :: s ->
  (Byte.to_N r <=? 127)%N = true ->
  exists rest,
    (names opt source).2 = ToTitle r :: rest
    /\ between "a" "z" (ToTitle r) = false.
Proof.
  intros Hname Hascii.
  assert ((names opt source).2
          = Title (if lib opt then kind opt else (names opt source).1.1)) as ->.
  { unfold names. by destruct (lib opt). }
  rewrite Hname. unfold Title. cbn [Title_map].
  change (isSeparator " ") with true. cbn iota.
  eexists. split; [reflexivity|]. by apply ToTitle_upper.
Qed.

Lemma typename_exported_witness :
  exists rest,
    (names {| kind := "int"; generic := "stack/stack.go"; lib := true |}
       "/home/dev/go/src/stack/stack.go").2 = "I"%byte :: rest
    /\ between "a" "z" "I" = false.
Proof.
  apply (typename_exported
           {| kind := "int"; generic := "stack/stack.go"; lib := true |}
           "/home/dev/go/src/stack/stack.go" "i" "nt"); reflexivity.
Defined.

End derived.

(** ** How runs of [main] end *)

Section endings.

Import GoBytes.

(** X9: in a run whose command line [flag.Parse] accepts, the exit
    status of [main] is decided by the package and the template alone: 0
    when both are found, 1 when either is not; the outcome of writing the
    file plays no part. *)
Theorem exit_status_by_inputs (args : list bytes) (e : Env) :
  parseArgs args = inl (flags e) ->
  exitStatus (main e initial)
  = match ImportDir e, ReadFile e (sourceOf e) with
    | inl _, inl _ => 0%Z
    | _, _ => 1%Z
    end.
Proof.
  intros _. destruct (ImportDir e) as [pkg|err] eqn:Hi.
  - destruct (ReadFile e (sourceOf e)) as [input|err] eqn:Hr.
    + by rewrite (main_completes e pkg input Hi Hr).
    + by rewrite (main_read_failure e pkg err Hi Hr).
  - by rewrite (main_import_failure e err Hi).
Qed.

Lemma exit_status_by_inputs_witness :
  exitStatus (main (example true "int" false) initial) = 0%Z.
Proof.
  apply (exit_status_by_inputs
           ["-lib"; "-type"; "int"; "-generic";
            "github.com/fogfish/golem/stack/stack.go"]
           (example true "int" false)).
  reflexivity.
Defined.

(** X10: when the package of the working directory cannot be resolved,
    [main] logs the error behind its prefix, writes no file and exits with
    status 1, whatever the flags and the template. *)
Theorem import_failure_fatal (e : Env) (err : bytes) :
  ImportDir e = inr err ->
  exitStatus (main e initial) = 1%Z
  /\ logged (main e initial).2 = [GoLog.line "==> golem: " err]
  /\ written (main e initial).2 = [].
Proof. intros Hi. by rewrite (main_import_failure e err Hi). Qed.

Lemma import_failure_fatal_witness :
  exitStatus (main outsidePackage initial) = 1%Z
  /\ logged (main outsidePackage initial).2
     = ["==> golem: no buildable Go source files in /tmp
"]
  /\ written (main outsidePackage initial).2 = [].
Proof.
  apply (import_failure_fatal outsidePackage
           "no buildable Go source files in /tmp").
  reflexivity.
Defined.

(** X11: when the template cannot be read at its path under [GOPATH],
    [main] logs the error behind its prefix, writes no file and exits with
    status 1. *)
Theorem read_failure_fatal (e : Env) (pkg : Package) (err : bytes) :
  ImportDir e = inl pkg ->
  ReadFile e (GoFilepath.Join [GOPATH e; "src"; generic (flags e)]) = inr err ->
  exitStatus (main e initial) = 1%Z
  /\ logged (main e initial).2 = [GoLog.line "==> golem: " err]
  /\ written (main e initial).2 = [].
Proof. intros Hi Hr. by rewrite (main_read_failure e pkg err Hi Hr). Qed.

Lemma read_failure_fatal_witness :
  exitStatus (main missingTemplate initial) = 1%Z
  /\ logged (main missingTemplate initial).2
     = ["==> golem: open /home/dev/go/src/github.com/absent/queue.go: no such file or directory
"]
  /\ written (main missingTemplate initial).2 = [].
Proof.
  apply (read_failure_fatal missingTemplate
           {| Name := "numbers"; PkgRoot := "/home/dev/go/pkg" |}
           "open /home/dev/go/src/github.com/absent/queue.go: no such file or directory");
    reflexivity.
Defined.



End endings.

(** ** Text without placeholders *)

Section frame.

Import GoBytes.

(** X13: a text that holds neither [genT] nor [AnyT] nor [package ] goes
    through the three rewrites unchanged, whatever the names. *)
Theorem rewrite_frame (file kind typename pkg : bytes) :
  Contains file aliasToken = false ->
  Contains file typeToken = false ->
  Contains file "package " = false ->
  rewrite file kind typename pkg = file.
Proof.
  intros Ha Ht Hp. unfold rewrite, declareType, referenceType.
  assert (Index file aliasDecl = None) as Hd.
  { destruct (Index file aliasDecl) as [j|] eqn:E; [|done].
    apply Index_Some_split in E.
    assert (Contains file aliasToken = true) as Hc; [|congruence].
    apply Contains_true_split.
    exists (take j file ++ "type "), (" interface{}" ++ drop (j + length aliasDecl) file).
    rewrite E at 1. by rewrite <- !app_assoc. }
  rewrite (Replace_once _ aliasDecl_nonempty), Hd.
  unfold Contains in Ha, Ht.
  destruct (Index file aliasToken) eqn:Ea; [done|].
  destruct (Index file typeToken) eqn:Et; [done|].
  rewrite (ReplaceAll_none _ aliasToken_nonempty) by done.
  rewrite (ReplaceAll_none _ typeToken_nonempty) by done.
  apply repackage_none, doExecute_None. intros u q v ->.
  assert (Contains (u ++ "package " ++ q ++ NL :: v) "package " = true) as Hc;
    [|congruence].
  apply Contains_true_split. by exists u, (q ++ NL :: v).
Qed.

Lemma rewrite_frame_witness :
  rewrite "func main() {}
" "int" "Int" "numbers" = "func main() {}
".
Proof. apply rewrite_frame; reflexivity. Defined.

End frame.

